(** * AXPBY dispatch of KokkosBlas, and the [rot] unification layer

    A shallow embedding of [src/impl/Kokkos_Blas1_MV_impl_axpby.hpp] and of
    the [Rot] unification layer of [KokkosBlas1_rot_spec.hpp].

    - Element types are abstract: an instance of [ArithTraits] supplies
      [ATS::zero ()], [ATS::one ()] and the C++ operators the functors use.
    - Views are descriptors (data pointer, extents, strides) into one shared
      memory, a finite map from addresses to elements.  Reading or writing an
      address that is not mapped is an error ([None]), so that a view which is
      never dereferenced may be invalid.
    - A [Kokkos::parallel_for] is recorded as a [Launch]; a dispatch function
      returns the launches it performs, and [run] executes them. *)

From Stdlib Require Import ZArith List Bool Lia String.
From stdpp Require Import base option list gmap.

Local Open Scope Z_scope.

(** ** Element type *)

(** [Kokkos::Details::ArithTraits<T>] together with the operators
    [+], binary [-], [*], unary [-] and [==] of the element type. *)
Class ArithTraits (T : Type) := {
  ATS_zero : T;
  ATS_one : T;
  s_add : T -> T -> T;
  s_sub : T -> T -> T;
  s_mul : T -> T -> T;
  s_neg : T -> T;
  s_eq : T -> T -> bool
}.

(** ** Index types *)

Definition INT_MAX : Z := 2147483647.

(** The [SizeType] template argument: [int], or the view's own
    [size_type]. *)
Inductive SizeType := IndexInt | IndexNative.

(** Conversion of a [size_type] value to [int] (two's complement). *)
Definition wrap_int (n : Z) : Z := (n + 2 ^ 31) mod 2 ^ 32 - 2 ^ 31.

(** [const SizeType v = <size_type value>]. *)
Definition to_index (st : SizeType) (n : Z) : Z :=
  match st with
  | IndexInt => wrap_int n
  | IndexNative => n
  end.

(** ** Views *)

Inductive Layout := LayoutLeft | LayoutRight.

(** The view's own [size_type]: an unsigned type of 32 or 64 bits. *)
Inductive NativeSize := Size32 | Size64.

Definition size_bits (s : NativeSize) : Z :=
  match s with Size32 => 32 | Size64 => 64 end.

(** Arithmetic in [size_type] wraps around. *)
Definition size_wrap (s : NativeSize) (n : Z) : Z := n mod 2 ^ size_bits s.

Record View2 := {
  v2_layout : Layout;
  v2_size_type : NativeSize;
  v2_data : Z;
  v2_dim0 : Z;
  v2_dim1 : Z;
  v2_stride0 : Z;
  v2_stride1 : Z
}.

Record View1 := {
  v1_data : Z;
  v1_dim0 : Z;
  v1_stride : Z
}.

(** Address of [V(i,k)] and of [v(i)]. *)
Definition addr2 (V : View2) (i k : Z) : Z :=
  v2_data V + i * v2_stride0 V + k * v2_stride1 V.

Definition addr1 (v : View1) (i : Z) : Z :=
  v1_data v + i * v1_stride v.

(** [Kokkos::subview (V, Kokkos::ALL (), j)]. *)
Definition subview (V : View2) (j : Z) : View1 :=
  {| v1_data := addr2 V 0 j; v1_dim0 := v2_dim0 V; v1_stride := v2_stride0 V |}.

(** The iterations [0, 1, ..., n-1] of [for (k = 0; k < n; ++k)]. *)
Definition range (n : Z) : list Z := seqZ 0 n.

(** A loop whose body may fail. *)
Fixpoint for_each {A S : Type} (l : list A) (body : A -> S -> option S)
    (s : S) : option S :=
  match l with
  | [] => Some s
  | x :: l' =>
      match body x s with
      | Some s' => for_each l' body s'
      | None => None
      end
  end.

(** [if (c) { body }]. *)
Definition when_ {S : Type} (c : bool) (body : S -> option S) (s : S)
    : option S :=
  if c then body s else Some s.

Section Axpby.

Context {T : Type} `{ATS : ArithTraits T}.

Local Abbreviation Mem := (gmap Z T).

Definition load (m : Mem) (p : Z) : option T := m !! p.

Definition store (m : Mem) (p : Z) (v : T) : option Mem :=
  match m !! p with
  | Some _ => Some (<[p := v]> m)
  | None => None
  end.

(** A coefficient argument: either both [AV] and [BV] are scalars, or both
    are 1-D views. *)
Inductive Coeff :=
| CoeffScalar (c : T)
| CoeffView (v : View1).

(** [m_a(k)] in the primary templates, [m_a] in the partial specializations
    for scalar coefficients. *)
Definition coeff_at (c : Coeff) (k : Z) (m : Mem) : option T :=
  match c with
  | CoeffScalar v => Some v
  | CoeffView v => load m (addr1 v k)
  end.


(** ** The functors *)

(** [MV_Axpby_Functor::operator() (i)], for the primary template and for its
    partial specialization on scalar coefficients: sixteen consecutive [if]
    statements on the template arguments, each looping over the columns. *)
Definition MV_Axpby_Functor_call (scalar_x scalar_y : Z) (numCols : Z)
    (m_r m_x m_y : View2) (m_a m_b : Coeff) (i : Z) (m : Mem) : option Mem :=
  m ← when_ ((scalar_x =? 0) && (scalar_y =? 0))
    (for_each (range numCols) (fun k m =>
          store m (addr2 m_r i k) ATS_zero)) m;
  m ← when_ ((scalar_x =? 0) && (scalar_y =? (-1)))
    (for_each (range numCols) (fun k m =>
          y ← load m (addr2 m_y i k); store m (addr2 m_r i k) (s_neg y))) m;
  m ← when_ ((scalar_x =? 0) && (scalar_y =? 1))
    (for_each (range numCols) (fun k m =>
          y ← load m (addr2 m_y i k); store m (addr2 m_r i k) y)) m;
  m ← when_ ((scalar_x =? 0) && (scalar_y =? 2))
    (for_each (range numCols) (fun k m =>
          b ← coeff_at m_b k m; y ← load m (addr2 m_y i k);
          store m (addr2 m_r i k) (s_mul b y))) m;
  m ← when_ ((scalar_x =? (-1)) && (scalar_y =? 0))
    (for_each (range numCols) (fun k m =>
          x ← load m (addr2 m_x i k); store m (addr2 m_r i k) (s_neg x))) m;
  m ← when_ ((scalar_x =? (-1)) && (scalar_y =? (-1)))
    (for_each (range numCols) (fun k m =>
          x ← load m (addr2 m_x i k); y ← load m (addr2 m_y i k);
          store m (addr2 m_r i k) (s_sub (s_neg x) y))) m;
  m ← when_ ((scalar_x =? (-1)) && (scalar_y =? 1))
    (for_each (range numCols) (fun k m =>
          x ← load m (addr2 m_x i k); y ← load m (addr2 m_y i k);
          store m (addr2 m_r i k) (s_add (s_neg x) y))) m;
  m ← when_ ((scalar_x =? (-1)) && (scalar_y =? 2))
    (for_each (range numCols) (fun k m =>
          x ← load m (addr2 m_x i k); b ← coeff_at m_b k m;
          y ← load m (addr2 m_y i k);
          store m (addr2 m_r i k) (s_add (s_neg x) (s_mul b y)))) m;
  m ← when_ ((scalar_x =? 1) && (scalar_y =? 0))
    (for_each (range numCols) (fun k m =>
          x ← load m (addr2 m_x i k); store m (addr2 m_r i k) x)) m;
  m ← when_ ((scalar_x =? 1) && (scalar_y =? (-1)))
    (for_each (range numCols) (fun k m =>
          x ← load m (addr2 m_x i k); y ← load m (addr2 m_y i k);
          store m (addr2 m_r i k) (s_sub x y))) m;
  m ← when_ ((scalar_x =? 1) && (scalar_y =? 1))
    (for_each (range numCols) (fun k m =>
          x ← load m (addr2 m_x i k); y ← load m (addr2 m_y i k);
          store m (addr2 m_r i k) (s_add x y))) m;
  m ← when_ ((scalar_x =? 1) && (scalar_y =? 2))
    (for_each (range numCols) (fun k m =>
          x ← load m (addr2 m_x i k); b ← coeff_at m_b k m;
          y ← load m (addr2 m_y i k);
          store m (addr2 m_r i k) (s_add x (s_mul b y)))) m;
  m ← when_ ((scalar_x =? 2) && (scalar_y =? 0))
    (for_each (range numCols) (fun k m =>
          a ← coeff_at m_a k m; x ← load m (addr2 m_x i k);
          store m (addr2 m_r i k) (s_mul a x))) m;
  m ← when_ ((scalar_x =? 2) && (scalar_y =? (-1)))
    (for_each (range numCols) (fun k m =>
          a ← coeff_at m_a k m; x ← load m (addr2 m_x i k);
          y ← load m (addr2 m_y i k);
          store m (addr2 m_r i k) (s_sub (s_mul a x) y))) m;
  m ← when_ ((scalar_x =? 2) && (scalar_y =? 1))
    (for_each (range numCols) (fun k m =>
          a ← coeff_at m_a k m; x ← load m (addr2 m_x i k);
          y ← load m (addr2 m_y i k);
          store m (addr2 m_r i k) (s_add (s_mul a x) y))) m;
  m ← when_ ((scalar_x =? 2) && (scalar_y =? 2))
    (for_each (range numCols) (fun k m =>
          a ← coeff_at m_a k m; x ← load m (addr2 m_x i k);
          b ← coeff_at m_b k m; y ← load m (addr2 m_y i k);
          store m (addr2 m_r i k) (s_add (s_mul a x) (s_mul b y)))) m;
  Some m.

(** [MV_Axpby_Unroll_Functor::operator() (i)]: the column loop runs over
    [int k = 0; k < UNROLL]. *)
Definition MV_Axpby_Unroll_Functor_call (scalar_x scalar_y : Z) (UNROLL : Z)
    (m_r m_x m_y : View2) (m_a m_b : Coeff) (i : Z) (m : Mem) : option Mem :=
  m ← when_ ((scalar_x =? 0) && (scalar_y =? 0))
    (for_each (range UNROLL) (fun k m =>
          store m (addr2 m_r i k) ATS_zero)) m;
  m ← when_ ((scalar_x =? 0) && (scalar_y =? (-1)))
    (for_each (range UNROLL) (fun k m =>
          y ← load m (addr2 m_y i k); store m (addr2 m_r i k) (s_neg y))) m;
  m ← when_ ((scalar_x =? 0) && (scalar_y =? 1))
    (for_each (range UNROLL) (fun k m =>
          y ← load m (addr2 m_y i k); store m (addr2 m_r i k) y)) m;
  m ← when_ ((scalar_x =? 0) && (scalar_y =? 2))
    (for_each (range UNROLL) (fun k m =>
          b ← coeff_at m_b k m; y ← load m (addr2 m_y i k);
          store m (addr2 m_r i k) (s_mul b y))) m;
  m ← when_ ((scalar_x =? (-1)) && (scalar_y =? 0))
    (for_each (range UNROLL) (fun k m =>
          x ← load m (addr2 m_x i k); store m (addr2 m_r i k) (s_neg x))) m;
  m ← when_ ((scalar_x =? (-1)) && (scalar_y =? (-1)))
    (for_each (range UNROLL) (fun k m =>
          x ← load m (addr2 m_x i k); y ← load m (addr2 m_y i k);
          store m (addr2 m_r i k) (s_sub (s_neg x) y))) m;
  m ← when_ ((scalar_x =? (-1)) && (scalar_y =? 1))
    (for_each (range UNROLL) (fun k m =>
          x ← load m (addr2 m_x i k); y ← load m (addr2 m_y i k);
          store m (addr2 m_r i k) (s_add (s_neg x) y))) m;
  m ← when_ ((scalar_x =? (-1)) && (scalar_y =? 2))
    (for_each (range UNROLL) (fun k m =>
          x ← load m (addr2 m_x i k); b ← coeff_at m_b k m;
          y ← load m (addr2 m_y i k);
          store m (addr2 m_r i k) (s_add (s_neg x) (s_mul b y)))) m;
  m ← when_ ((scalar_x =? 1) && (scalar_y =? 0))
    (for_each (range UNROLL) (fun k m =>
          x ← load m (addr2 m_x i k); store m (addr2 m_r i k) x)) m;
  m ← when_ ((scalar_x =? 1) && (scalar_y =? (-1)))
    (for_each (range UNROLL) (fun k m =>
          x ← load m (addr2 m_x i k); y ← load m (addr2 m_y i k);
          store m (addr2 m_r i k) (s_sub x y))) m;
  m ← when_ ((scalar_x =? 1) && (scalar_y =? 1))
    (for_each (range UNROLL) (fun k m =>
          x ← load m (addr2 m_x i k); y ← load m (addr2 m_y i k);
          store m (addr2 m_r i k) (s_add x y))) m;
  m ← when_ ((scalar_x =? 1) && (scalar_y =? 2))
    (for_each (range UNROLL) (fun k m =>
          x ← load m (addr2 m_x i k); b ← coeff_at m_b k m;
          y ← load m (addr2 m_y i k);
          store m (addr2 m_r i k) (s_add x (s_mul b y)))) m;
  m ← when_ ((scalar_x =? 2) && (scalar_y =? 0))
    (for_each (range UNROLL) (fun k m =>
          a ← coeff_at m_a k m; x ← load m (addr2 m_x i k);
          store m (addr2 m_r i k) (s_mul a x))) m;
  m ← when_ ((scalar_x =? 2) && (scalar_y =? (-1)))
    (for_each (range UNROLL) (fun k m =>
          a ← coeff_at m_a k m; x ← load m (addr2 m_x i k);
          y ← load m (addr2 m_y i k);
          store m (addr2 m_r i k) (s_sub (s_mul a x) y))) m;
  m ← when_ ((scalar_x =? 2) && (scalar_y =? 1))
    (for_each (range UNROLL) (fun k m =>
          a ← coeff_at m_a k m; x ← load m (addr2 m_x i k);
          y ← load m (addr2 m_y i k);
          store m (addr2 m_r i k) (s_add (s_mul a x) y))) m;
  m ← when_ ((scalar_x =? 2) && (scalar_y =? 2))
    (for_each (range UNROLL) (fun k m =>
          a ← coeff_at m_a k m; x ← load m (addr2 m_x i k);
          b ← coeff_at m_b k m; y ← load m (addr2 m_y i k);
          store m (addr2 m_r i k) (s_add (s_mul a x) (s_mul b y)))) m;
  Some m.

(** [V_Axpby_Functor::operator() (i)]: one entry per row; a coefficient view
    is read at index 0. *)
Definition V_Axpby_Functor_call (scalar_x scalar_y : Z)
    (m_r m_x m_y : View1) (m_a m_b : Coeff) (i : Z) (m : Mem) : option Mem :=
  m ← when_ ((scalar_x =? 0) && (scalar_y =? 0))
    (fun m =>
       store m (addr1 m_r i) ATS_zero) m;
  m ← when_ ((scalar_x =? 0) && (scalar_y =? (-1)))
    (fun m =>
       y ← load m (addr1 m_y i); store m (addr1 m_r i) (s_neg y)) m;
  m ← when_ ((scalar_x =? 0) && (scalar_y =? 1))
    (fun m =>
       y ← load m (addr1 m_y i); store m (addr1 m_r i) y) m;
  m ← when_ ((scalar_x =? 0) && (scalar_y =? 2))
    (fun m =>
       b ← coeff_at m_b 0 m; y ← load m (addr1 m_y i);
       store m (addr1 m_r i) (s_mul b y)) m;
  m ← when_ ((scalar_x =? (-1)) && (scalar_y =? 0))
    (fun m =>
       x ← load m (addr1 m_x i); store m (addr1 m_r i) (s_neg x)) m;
  m ← when_ ((scalar_x =? (-1)) && (scalar_y =? (-1)))
    (fun m =>
       x ← load m (addr1 m_x i); y ← load m (addr1 m_y i);
       store m (addr1 m_r i) (s_sub (s_neg x) y)) m;
  m ← when_ ((scalar_x =? (-1)) && (scalar_y =? 1))
    (fun m =>
       x ← load m (addr1 m_x i); y ← load m (addr1 m_y i);
       store m (addr1 m_r i) (s_add (s_neg x) y)) m;
  m ← when_ ((scalar_x =? (-1)) && (scalar_y =? 2))
    (fun m =>
       x ← load m (addr1 m_x i); b ← coeff_at m_b 0 m;
       y ← load m (addr1 m_y i);
       store m (addr1 m_r i) (s_add (s_neg x) (s_mul b y))) m;
  m ← when_ ((scalar_x =? 1) && (scalar_y =? 0))
    (fun m =>
       x ← load m (addr1 m_x i); store m (addr1 m_r i) x) m;
  m ← when_ ((scalar_x =? 1) && (scalar_y =? (-1)))
    (fun m =>
       x ← load m (addr1 m_x i); y ← load m (addr1 m_y i);
       store m (addr1 m_r i) (s_sub x y)) m;
  m ← when_ ((scalar_x =? 1) && (scalar_y =? 1))
    (fun m =>
       x ← load m (addr1 m_x i); y ← load m (addr1 m_y i);
       store m (addr1 m_r i) (s_add x y)) m;
  m ← when_ ((scalar_x =? 1) && (scalar_y =? 2))
    (fun m =>
       x ← load m (addr1 m_x i); b ← coeff_at m_b 0 m;
       y ← load m (addr1 m_y i); store m (addr1 m_r i) (s_add x (s_mul b y))) m;
  m ← when_ ((scalar_x =? 2) && (scalar_y =? 0))
    (fun m =>
       a ← coeff_at m_a 0 m; x ← load m (addr1 m_x i);
       store m (addr1 m_r i) (s_mul a x)) m;
  m ← when_ ((scalar_x =? 2) && (scalar_y =? (-1)))
    (fun m =>
       a ← coeff_at m_a 0 m; x ← load m (addr1 m_x i);
       y ← load m (addr1 m_y i); store m (addr1 m_r i) (s_sub (s_mul a x) y)) m;
  m ← when_ ((scalar_x =? 2) && (scalar_y =? 1))
    (fun m =>
       a ← coeff_at m_a 0 m; x ← load m (addr1 m_x i);
       y ← load m (addr1 m_y i); store m (addr1 m_r i) (s_add (s_mul a x) y)) m;
  m ← when_ ((scalar_x =? 2) && (scalar_y =? 2))
    (fun m =>
       a ← coeff_at m_a 0 m; x ← load m (addr1 m_x i); b ← coeff_at m_b 0 m;
       y ← load m (addr1 m_y i);
       store m (addr1 m_r i) (s_add (s_mul a x) (s_mul b y))) m;
  Some m.

(** A functor object: the template instantiation and the constructor
    arguments [(r, x, y, av, bv)]. *)
Inductive Functor :=
| MV_Axpby_Functor (scalar_x scalar_y : Z) (st : SizeType)
    (r x y : View2) (av bv : Coeff)
| MV_Axpby_Unroll_Functor (scalar_x scalar_y : Z) (UNROLL : Z) (st : SizeType)
    (r x y : View2) (av bv : Coeff)
| V_Axpby_Functor (scalar_x scalar_y : Z) (st : SizeType)
    (r x y : View1) (av bv : Coeff).

(** [op (i)].  The constructor of [MV_Axpby_Functor] stores
    [numCols (X.dimension_1 ())] in the functor's [size_type]. *)
Definition call (op : Functor) (i : Z) (m : Mem) : option Mem :=
  match op with
  | MV_Axpby_Functor sx sy st r x y av bv =>
      MV_Axpby_Functor_call sx sy (to_index st (v2_dim1 x)) r x y av bv i m
  | MV_Axpby_Unroll_Functor sx sy UNROLL st r x y av bv =>
      MV_Axpby_Unroll_Functor_call sx sy UNROLL r x y av bv i m
  | V_Axpby_Functor sx sy st r x y av bv =>
      V_Axpby_Functor_call sx sy r x y av bv i m
  end.

(** [Kokkos::parallel_for (policy, op)] with
    [RangePolicy<execution_space, SizeType> policy (0, numRows)]. *)
Record Launch := parallel_for { policy_end : Z; launch_op : Functor }.

(** Rows are visited in increasing order; any other order ends in the same
    memory ([row_order_irrelevant]). *)
Definition run_launch (l : Launch) (m : Mem) : option Mem :=
  for_each (range (policy_end l)) (call (launch_op l)) m.

Definition run (ls : list Launch) (m : Mem) : option Mem :=
  for_each ls run_launch m.

(** ** The dispatch layer *)

Definition MV_Axpby_Unrolled (UNROLL : Z) (st : SizeType)
    (r : View2) (av : Coeff) (x : View2) (bv : Coeff) (y : View2)
    (a b : Z) : list Launch :=
  let numRows := to_index st (v2_dim0 x) in
  if (a =? 0) && (b =? 0) then
    [parallel_for numRows (MV_Axpby_Unroll_Functor 0 0 UNROLL st r x y av bv)]
  else
  if (a =? 0) && (b =? (-1)) then
    [parallel_for numRows (MV_Axpby_Unroll_Functor 0 (-1) UNROLL st r x y av bv)]
  else
  if (a =? 0) && (b =? 1) then
    [parallel_for numRows (MV_Axpby_Unroll_Functor 0 1 UNROLL st r x y av bv)]
  else
  if (a =? 0) && (b =? 2) then
    [parallel_for numRows (MV_Axpby_Unroll_Functor 0 2 UNROLL st r x y av bv)]
  else
  if (a =? (-1)) && (b =? 0) then
    [parallel_for numRows (MV_Axpby_Unroll_Functor (-1) 0 UNROLL st r x y av bv)]
  else
  if (a =? (-1)) && (b =? (-1)) then
    [parallel_for numRows (MV_Axpby_Unroll_Functor (-1) (-1) UNROLL st r x y av bv)]
  else
  if (a =? (-1)) && (b =? 1) then
    [parallel_for numRows (MV_Axpby_Unroll_Functor (-1) 1 UNROLL st r x y av bv)]
  else
  if (a =? (-1)) && (b =? 2) then
    [parallel_for numRows (MV_Axpby_Unroll_Functor (-1) 2 UNROLL st r x y av bv)]
  else
  if (a =? 1) && (b =? 0) then
    [parallel_for numRows (MV_Axpby_Unroll_Functor 1 0 UNROLL st r x y av bv)]
  else
  if (a =? 1) && (b =? (-1)) then
    [parallel_for numRows (MV_Axpby_Unroll_Functor 1 (-1) UNROLL st r x y av bv)]
  else
  if (a =? 1) && (b =? 1) then
    [parallel_for numRows (MV_Axpby_Unroll_Functor 1 1 UNROLL st r x y av bv)]
  else
  if (a =? 1) && (b =? 2) then
    [parallel_for numRows (MV_Axpby_Unroll_Functor 1 2 UNROLL st r x y av bv)]
  else
    [parallel_for numRows (MV_Axpby_Unroll_Functor 2 2 UNROLL st r x y av bv)].

Definition MV_Axpby_Generic (st : SizeType)
    (r : View2) (av : Coeff) (x : View2) (bv : Coeff) (y : View2)
    (a b : Z) : list Launch :=
  let numRows := to_index st (v2_dim0 x) in
  if (a =? 0) && (b =? 0) then
    [parallel_for numRows (MV_Axpby_Functor 0 0 st r x y av bv)]
  else
  if (a =? 0) && (b =? (-1)) then
    [parallel_for numRows (MV_Axpby_Functor 0 (-1) st r x y av bv)]
  else
  if (a =? 0) && (b =? 1) then
    [parallel_for numRows (MV_Axpby_Functor 0 1 st r x y av bv)]
  else
  if (a =? 0) && (b =? 2) then
    [parallel_for numRows (MV_Axpby_Functor 0 2 st r x y av bv)]
  else
  if (a =? (-1)) && (b =? 0) then
    [parallel_for numRows (MV_Axpby_Functor (-1) 0 st r x y av bv)]
  else
  if (a =? (-1)) && (b =? (-1)) then
    [parallel_for numRows (MV_Axpby_Functor (-1) (-1) st r x y av bv)]
  else
  if (a =? (-1)) && (b =? 1) then
    [parallel_for numRows (MV_Axpby_Functor (-1) 1 st r x y av bv)]
  else
  if (a =? (-1)) && (b =? 2) then
    [parallel_for numRows (MV_Axpby_Functor (-1) 2 st r x y av bv)]
  else
  if (a =? 1) && (b =? 0) then
    [parallel_for numRows (MV_Axpby_Functor 1 0 st r x y av bv)]
  else
  if (a =? 1) && (b =? (-1)) then
    [parallel_for numRows (MV_Axpby_Functor 1 (-1) st r x y av bv)]
  else
  if (a =? 1) && (b =? 1) then
    [parallel_for numRows (MV_Axpby_Functor 1 1 st r x y av bv)]
  else
  if (a =? 1) && (b =? 2) then
    [parallel_for numRows (MV_Axpby_Functor 1 2 st r x y av bv)]
  else
    [parallel_for numRows (MV_Axpby_Functor 2 2 st r x y av bv)].

Definition V_Axpby_Generic (st : SizeType)
    (r : View1) (av : Coeff) (x : View1) (bv : Coeff) (y : View1)
    (a b : Z) : list Launch :=
  let numRows := to_index st (v1_dim0 x) in
  if (a =? 0) && (b =? 0) then
    [parallel_for numRows (V_Axpby_Functor 0 0 st r x y av bv)]
  else
  if (a =? 0) && (b =? (-1)) then
    [parallel_for numRows (V_Axpby_Functor 0 (-1) st r x y av bv)]
  else
  if (a =? 0) && (b =? 1) then
    [parallel_for numRows (V_Axpby_Functor 0 1 st r x y av bv)]
  else
  if (a =? 0) && (b =? 2) then
    [parallel_for numRows (V_Axpby_Functor 0 2 st r x y av bv)]
  else
  if (a =? (-1)) && (b =? 0) then
    [parallel_for numRows (V_Axpby_Functor (-1) 0 st r x y av bv)]
  else
  if (a =? (-1)) && (b =? (-1)) then
    [parallel_for numRows (V_Axpby_Functor (-1) (-1) st r x y av bv)]
  else
  if (a =? (-1)) && (b =? 1) then
    [parallel_for numRows (V_Axpby_Functor (-1) 1 st r x y av bv)]
  else
  if (a =? (-1)) && (b =? 2) then
    [parallel_for numRows (V_Axpby_Functor (-1) 2 st r x y av bv)]
  else
  if (a =? 1) && (b =? 0) then
    [parallel_for numRows (V_Axpby_Functor 1 0 st r x y av bv)]
  else
  if (a =? 1) && (b =? (-1)) then
    [parallel_for numRows (V_Axpby_Functor 1 (-1) st r x y av bv)]
  else
  if (a =? 1) && (b =? 1) then
    [parallel_for numRows (V_Axpby_Functor 1 1 st r x y av bv)]
  else
  if (a =? 1) && (b =? 2) then
    [parallel_for numRows (V_Axpby_Functor 1 2 st r x y av bv)]
  else
    [parallel_for numRows (V_Axpby_Functor 2 2 st r x y av bv)].

(** ** The layout-aware invokers *)

(** [switch (numCols)]: case 1, cases 2 to 16, default. *)
Definition MV_Axpby_Invoke_Left (st : SizeType)
    (r : View2) (av : Coeff) (x : View2) (bv : Coeff) (y : View2)
    (a b : Z) : list Launch :=
  let numCols := to_index st (v2_dim1 x) in
  if numCols =? 1 then
    V_Axpby_Generic st (subview r 0) av (subview x 0) bv (subview y 0) a b
  else if numCols =? 2 then
    MV_Axpby_Unrolled 2 st r av x bv y a b
  else if numCols =? 3 then
    MV_Axpby_Unrolled 3 st r av x bv y a b
  else if numCols =? 4 then
    MV_Axpby_Unrolled 4 st r av x bv y a b
  else if numCols =? 5 then
    MV_Axpby_Unrolled 5 st r av x bv y a b
  else if numCols =? 6 then
    MV_Axpby_Unrolled 6 st r av x bv y a b
  else if numCols =? 7 then
    MV_Axpby_Unrolled 7 st r av x bv y a b
  else if numCols =? 8 then
    MV_Axpby_Unrolled 8 st r av x bv y a b
  else if numCols =? 9 then
    MV_Axpby_Unrolled 9 st r av x bv y a b
  else if numCols =? 10 then
    MV_Axpby_Unrolled 10 st r av x bv y a b
  else if numCols =? 11 then
    MV_Axpby_Unrolled 11 st r av x bv y a b
  else if numCols =? 12 then
    MV_Axpby_Unrolled 12 st r av x bv y a b
  else if numCols =? 13 then
    MV_Axpby_Unrolled 13 st r av x bv y a b
  else if numCols =? 14 then
    MV_Axpby_Unrolled 14 st r av x bv y a b
  else if numCols =? 15 then
    MV_Axpby_Unrolled 15 st r av x bv y a b
  else if numCols =? 16 then
    MV_Axpby_Unrolled 16 st r av x bv y a b
  else
    MV_Axpby_Generic st r av x bv y a b.


(** ** The entry points *)

(** [Axpby<RMV, AV, XMV, BV, YMV, 2>::axpby], coefficients given as 1-D
    views. *)
Definition Axpby2_view_tags (av bv : View1) : Z * Z :=
  let a := 2 in
  let b := 2 in
  let a := if v1_dim0 av =? 0 then 0 else a in
  let b := if v1_dim0 bv =? 0 then 0 else b in
  (a, b).

(** [numRows < static_cast<size_type> (INT_MAX) &&
     numRows * numCols < static_cast<size_type> (INT_MAX)]. *)
Definition Axpby2_index_type (X : View2) : SizeType :=
  let numRows := v2_dim0 X in
  let numCols := v2_dim1 X in
  if (numRows <? INT_MAX)
     && (size_wrap (v2_size_type X) (numRows * numCols) <? INT_MAX)
  then IndexInt else IndexNative.

Definition Axpby2_view_axpby (R : View2) (av : View1) (X : View2)
    (bv : View1) (Y : View2) : list Launch :=
  let '(a, b) := Axpby2_view_tags av bv in
  match Axpby2_index_type X with
  | IndexInt =>
      MV_Axpby_Invoke_Left IndexInt R (CoeffView av) X (CoeffView bv) Y a b
  | IndexNative =>
      MV_Axpby_Invoke_Left IndexNative R (CoeffView av) X (CoeffView bv) Y a b
  end.

(** [Axpby<RMV, scalar, XMV, scalar, YMV, 2>::axpby]: [int a, b;] set by
    two [if / else if / else if / else] chains. *)
Definition Axpby2_scalar_tags (alpha beta : T) : Z * Z :=
  let a :=
    if s_eq alpha ATS_zero then 0
    else if s_eq alpha (s_neg ATS_one) then -1
    else if s_eq alpha ATS_one then 1
    else 2 in
  let b :=
    if s_eq beta ATS_zero then 0
    else if s_eq beta (s_neg ATS_one) then -1
    else if s_eq beta ATS_one then 1
    else 2 in
  (a, b).

Definition Axpby2_scalar_axpby (R : View2) (alpha : T) (X : View2)
    (beta : T) (Y : View2) : list Launch :=
  let '(a, b) := Axpby2_scalar_tags alpha beta in
  match Axpby2_index_type X with
  | IndexInt =>
      MV_Axpby_Invoke_Left IndexInt R (CoeffScalar alpha) X
        (CoeffScalar beta) Y a b
  | IndexNative =>
      MV_Axpby_Invoke_Left IndexNative R (CoeffScalar alpha) X
        (CoeffScalar beta) Y a b
  end.

(** [Axpby<RV, scalar, XV, scalar, YV, 1>::axpby]: [int a = 2;] overwritten
    by an [if / else if / else if] chain without a final [else]. *)
Definition Axpby1_scalar_tags (alpha beta : T) : Z * Z :=
  let a := 2 in
  let a :=
    if s_eq alpha ATS_zero then 0
    else if s_eq alpha (s_neg ATS_one) then -1
    else if s_eq alpha ATS_one then 1
    else a in
  let b := 2 in
  let b :=
    if s_eq beta ATS_zero then 0
    else if s_eq beta (s_neg ATS_one) then -1
    else if s_eq beta ATS_one then 1
    else b in
  (a, b).

(** [numRows < static_cast<size_type> (INT_MAX)]. *)
Definition Axpby1_index_type (X : View1) : SizeType :=
  let numRows := v1_dim0 X in
  if numRows <? INT_MAX then IndexInt else IndexNative.

Definition Axpby1_scalar_axpby (R : View1) (alpha : T) (X : View1)
    (beta : T) (Y : View1) : list Launch :=
  let '(a, b) := Axpby1_scalar_tags alpha beta in
  match Axpby1_index_type X with
  | IndexInt =>
      V_Axpby_Generic IndexInt R (CoeffScalar alpha) X (CoeffScalar beta) Y a b
  | IndexNative =>
      V_Axpby_Generic IndexNative R (CoeffScalar alpha) X
        (CoeffScalar beta) Y a b
  end.

(** The [SizeType] a functor was instantiated with. *)
Definition functor_size_type (op : Functor) : SizeType :=
  match op with
  | MV_Axpby_Functor _ _ st _ _ _ _ _ => st
  | MV_Axpby_Unroll_Functor _ _ _ st _ _ _ _ _ => st
  | V_Axpby_Functor _ _ st _ _ _ _ _ => st
  end.

(** The template arguments [scalar_x], [scalar_y] of a functor. *)
Definition functor_tags (op : Functor) : Z * Z :=
  match op with
  | MV_Axpby_Functor sx sy _ _ _ _ _ _ => (sx, sy)
  | MV_Axpby_Unroll_Functor sx sy _ _ _ _ _ _ _ => (sx, sy)
  | V_Axpby_Functor sx sy _ _ _ _ _ _ => (sx, sy)
  end.

(** The template arguments the [if] chain of the three dispatch functions
    arrives at: twelve tests, then the default. *)
Definition dispatch_tags (a b : Z) : Z * Z :=
  if (a =? 0) && (b =? 0) then (0, 0) else
  if (a =? 0) && (b =? (-1)) then (0, -1) else
  if (a =? 0) && (b =? 1) then (0, 1) else
  if (a =? 0) && (b =? 2) then (0, 2) else
  if (a =? (-1)) && (b =? 0) then (-1, 0) else
  if (a =? (-1)) && (b =? (-1)) then (-1, -1) else
  if (a =? (-1)) && (b =? 1) then (-1, 1) else
  if (a =? (-1)) && (b =? 2) then (-1, 2) else
  if (a =? 1) && (b =? 0) then (1, 0) else
  if (a =? 1) && (b =? (-1)) then (1, -1) else
  if (a =? 1) && (b =? 1) then (1, 1) else
  if (a =? 1) && (b =? 2) then (1, 2) else
  (2, 2).

(** ** Reference semantics of one entry *)

(** The four coefficient codes. *)
Definition tags : list Z := [0; -1; 1; 2].

(** The right-hand side assigned by the branch [(sx, sy)], with the
    operators the source uses. *)
Definition rhs (sx sy : Z) (a x b y : T) : T :=
  if sx =? 0 then
    if sy =? 0 then ATS_zero
    else if sy =? -1 then s_neg y
    else if sy =? 1 then y
    else s_mul b y
  else
    let u :=
      if sx =? -1 then s_neg x else if sx =? 1 then x else s_mul a x in
    if sy =? 0 then u
    else if sy =? -1 then s_sub u y
    else if sy =? 1 then s_add u y
    else s_add u (s_mul b y).

(** A read that only happens when the branch needs the operand. *)
Definition read_if (c : bool) (o : option T) : option T :=
  if c then o else Some ATS_zero.

(** One assignment [R(..) = ...]: coefficient index [k], addresses [px],
    [py] of the operands' entries and [pr] of the output entry. *)
Definition cell (sx sy : Z) (a b : Coeff) (k : Z) (px py pr : Z) (m : Mem)
    : option Mem :=
  ca ← read_if (sx =? 2) (coeff_at a k m);
  x ← read_if (negb (sx =? 0)) (load m px);
  cb ← read_if (sy =? 2) (coeff_at b k m);
  y ← read_if (negb (sy =? 0)) (load m py);
  store m pr (rhs sx sy ca x cb y).

(** The same assignment, indexed by the pair (row, column). *)
Definition cell_at (sx sy : Z) (a b : Coeff) (px py pr : Z * Z -> Z)
    (c : Z * Z) (m : Mem) : option Mem :=
  cell sx sy a b (snd c) (px c) (py c) (pr c) m.

(** The address a coefficient read touches, if any. *)
Definition coeff_cell (c : Coeff) (k : Z) : option Z :=
  match c with
  | CoeffScalar _ => None
  | CoeffView v => Some (addr1 v k)
  end.

(** The coefficient of column [k]: the scalar itself, or the entry [a(k)]
    that the memory holds for a coefficient view. *)
Definition coeff_value (c : Coeff) (k : Z) (m : Mem) (v : T) : Prop :=
  match c with
  | CoeffScalar s => v = s
  | CoeffView w => m !! addr1 w k = Some v
  end.

(** The formula of the specification: the contribution of one operand under
    a coefficient code, absent for code 0, and the sum of the contributions
    that are present. *)
Definition term (s : Z) (c v : T) : option T :=
  if s =? 0 then None
  else if s =? -1 then Some (s_neg v)
  else if s =? 1 then Some v
  else Some (s_mul c v).

Definition sum_terms (fx fy : option T) : T :=
  match fx, fy with
  | None, None => ATS_zero
  | Some u, None => u
  | None, Some v => v
  | Some u, Some v => s_add u v
  end.

(** Entry addresses as functions of the index pair; a rank-1 view ignores
    the column. *)
Definition at2 (V : View2) (c : Z * Z) : Z := addr2 V (fst c) (snd c).
Definition at1 (v : View1) (c : Z * Z) : Z := addr1 v (fst c).

(** The index pairs of a kernel over [rows] rows and [cols] columns. *)
Definition in_grid (rows cols : Z) (c : Z * Z) : Prop :=
  0 <= fst c < rows /\ 0 <= snd c < cols.

(** What a kernel needs of the initial memory [m0] and of the views, given
    as the address functions [pr], [px], [py]:
    - every output entry is mapped, and output entries of different indices
      are different addresses;
    - an operand whose code is not 0 holds the values [xv] (resp. [yv]), and
      its entries are not the output entries of other indices (the operand
      may be the output itself, entry for entry);
    - a coefficient whose code is 2 has the values [ca] (resp. [cb]), the
      scalar itself or the entries the view holds in [m0], and its entries
      are not output entries.
    Nothing is asked of an operand whose code is 0, nor of a coefficient
    whose code is not 2. *)
Definition kernel_pre (sx sy : Z) (a b : Coeff) (px py pr : Z * Z -> Z)
    (rows cols : Z) (xv yv : Z * Z -> T) (ca cb : Z -> T) (m0 : Mem)
    : Prop :=
  (forall c, in_grid rows cols c -> is_Some (m0 !! pr c)) /\
  (forall c c', in_grid rows cols c -> in_grid rows cols c' -> c <> c' ->
     pr c <> pr c') /\
  (sx <> 0 ->
   forall c, in_grid rows cols c ->
     m0 !! px c = Some (xv c) /\
     forall c', in_grid rows cols c' -> c' <> c -> pr c' <> px c) /\
  (sy <> 0 ->
   forall c, in_grid rows cols c ->
     m0 !! py c = Some (yv c) /\
     forall c', in_grid rows cols c' -> c' <> c -> pr c' <> py c) /\
  (sx = 2 ->
   forall k, 0 <= k < cols ->
     coeff_value a k m0 (ca k) /\
     forall c, in_grid rows cols c -> coeff_cell a k <> Some (pr c)) /\
  (sy = 2 ->
   forall k, 0 <= k < cols ->
     coeff_value b k m0 (cb k) /\
     forall c, in_grid rows cols c -> coeff_cell b k <> Some (pr c)).

(** Every output entry holds the formula of the specification. *)
Definition kernel_post (sx sy : Z) (pr : Z * Z -> Z) (rows cols : Z)
    (xv yv : Z * Z -> T) (ca cb : Z -> T) (m' : Mem) : Prop :=
  forall c, in_grid rows cols c ->
    m' !! pr c =
    Some (sum_terms (term sx (ca (snd c)) (xv c)) (term sy (cb (snd c)) (yv c))).

(** No output entry is an operand entry or a coefficient entry. *)
Definition no_alias (a b : Coeff) (px py pr : Z * Z -> Z) (rows cols : Z)
    : Prop :=
  (forall c c', in_grid rows cols c -> in_grid rows cols c' ->
     pr c <> px c' /\ pr c <> py c') /\
  (forall c k, in_grid rows cols c -> 0 <= k < cols ->
     coeff_cell a k <> Some (pr c) /\ coeff_cell b k <> Some (pr c)).

(** Two memories that differ at most in the contents of the output
    entries. *)
Definition differ_only_on (pr : Z * Z -> Z) (rows cols : Z) (m1 m2 : Mem)
    : Prop :=
  (forall p, (forall c, in_grid rows cols c -> p <> pr c) ->
     m1 !! p = m2 !! p) /\
  (forall c, in_grid rows cols c ->
     (is_Some (m1 !! pr c) <-> is_Some (m2 !! pr c))).

(** The grid of a functor: its column count, the addresses of its output
    and operand entries, and its coefficients. *)
Definition functor_cols (op : Functor) : Z :=
  match op with
  | MV_Axpby_Functor _ _ st _ x _ _ _ => to_index st (v2_dim1 x)
  | MV_Axpby_Unroll_Functor _ _ U _ _ _ _ _ _ => U
  | V_Axpby_Functor _ _ _ _ _ _ _ _ => 1
  end.

Definition functor_out (op : Functor) : Z * Z -> Z :=
  match op with
  | MV_Axpby_Functor _ _ _ r _ _ _ _ => at2 r
  | MV_Axpby_Unroll_Functor _ _ _ _ r _ _ _ _ => at2 r
  | V_Axpby_Functor _ _ _ r _ _ _ _ => at1 r
  end.

Definition functor_in_x (op : Functor) : Z * Z -> Z :=
  match op with
  | MV_Axpby_Functor _ _ _ _ x _ _ _ => at2 x
  | MV_Axpby_Unroll_Functor _ _ _ _ _ x _ _ _ => at2 x
  | V_Axpby_Functor _ _ _ _ x _ _ _ => at1 x
  end.

Definition functor_in_y (op : Functor) : Z * Z -> Z :=
  match op with
  | MV_Axpby_Functor _ _ _ _ _ y _ _ => at2 y
  | MV_Axpby_Unroll_Functor _ _ _ _ _ _ y _ _ => at2 y
  | V_Axpby_Functor _ _ _ _ _ y _ _ => at1 y
  end.

Definition functor_a (op : Functor) : Coeff :=
  match op with
  | MV_Axpby_Functor _ _ _ _ _ _ a _ => a
  | MV_Axpby_Unroll_Functor _ _ _ _ _ _ _ a _ => a
  | V_Axpby_Functor _ _ _ _ _ _ a _ => a
  end.

Definition functor_b (op : Functor) : Coeff :=
  match op with
  | MV_Axpby_Functor _ _ _ _ _ _ _ b => b
  | MV_Axpby_Unroll_Functor _ _ _ _ _ _ _ _ b => b
  | V_Axpby_Functor _ _ _ _ _ _ _ b => b
  end.

(** The template codes of a functor are among the four. *)
Definition functor_tested (op : Functor) : Prop :=
  In (fst (functor_tags op)) tags /\ In (snd (functor_tags op)) tags.

(** The assignments of a functor, as a function of the entry. *)
Definition functor_cell (op : Functor) : Z * Z -> Mem -> option Mem :=
  cell_at (fst (functor_tags op)) (snd (functor_tags op))
    (functor_a op) (functor_b op)
    (functor_in_x op) (functor_in_y op) (functor_out op).

(** A coefficient entry is valid memory (a scalar coefficient always is). *)
Definition coeff_mapped (c : Coeff) (k : Z) (m : Mem) : Prop :=
  match c with
  | CoeffScalar _ => True
  | CoeffView v => is_Some (m !! addr1 v k)
  end.

(** The addresses the assignment of entry [c] dereferences are valid: the
    output entry, the entry of each operand whose code is not 0, and the
    entry of each coefficient whose code is 2. *)
Definition cell_ready (sx sy : Z) (a b : Coeff) (px py pr : Z * Z -> Z)
    (m : Mem) (c : Z * Z) : Prop :=
  is_Some (m !! pr c) /\
  (sx <> 0 -> is_Some (m !! px c)) /\
  (sy <> 0 -> is_Some (m !! py c)) /\
  (sx = 2 -> coeff_mapped a (snd c) m) /\
  (sy = 2 -> coeff_mapped b (snd c) m).

(** The classification of a scalar coefficient, case by case, in the order
    the specification lists the cases. *)
Definition tag_spec (v : T) (t : Z) : Prop :=
  (s_eq v ATS_zero = true -> t = 0) /\
  (s_eq v ATS_zero = false -> s_eq v (s_neg ATS_one) = true -> t = -1) /\
  (s_eq v ATS_zero = false -> s_eq v (s_neg ATS_one) = false ->
   s_eq v ATS_one = true -> t = 1) /\
  (s_eq v ATS_zero = false -> s_eq v (s_neg ATS_one) = false ->
   s_eq v ATS_one = false -> t = 2).

End Axpby.

Arguments Coeff T : clear implicits.
Arguments Functor T : clear implicits.
Arguments Launch T : clear implicits.

(** A value fits the range of a 32-bit signed integer. *)
Definition fits_int32 (n : Z) : bool := (- 2 ^ 31 <=? n) && (n <=? 2 ^ 31 - 1).

(** Extents are values of [size_type], and so is the number of entries. *)
Definition wf_view2 (V : View2) : Prop :=
  0 <= v2_dim0 V /\ 0 <= v2_dim1 V /\
  v2_dim0 V * v2_dim1 V < 2 ^ size_bits (v2_size_type V).

(** ** Example inputs *)


(** A view of [rows] x [cols] entries stored column by column. *)
Definition col_major (data rows cols : Z) : View2 :=
  {| v2_layout := LayoutLeft; v2_size_type := Size64; v2_data := data;
     v2_dim0 := rows; v2_dim1 := cols; v2_stride0 := 1; v2_stride1 := rows |}.

(** A contiguous vector of [n] entries. *)
Definition vector (data n : Z) : View1 :=
  {| v1_data := data; v1_dim0 := n; v1_stride := 1 |}.

(** ** A concrete element type *)

(** Integers extended with a not-a-number value that every operation
    propagates and that compares unequal to everything, itself included. *)
Inductive num := Fin (z : Z) | NaN.

Definition num_lift2 (f : Z -> Z -> Z) (u v : num) : num :=
  match u, v with
  | Fin a, Fin b => Fin (f a b)
  | _, _ => NaN
  end.

Definition num_neg (u : num) : num :=
  match u with Fin a => Fin (- a) | NaN => NaN end.

Definition num_eq (u v : num) : bool :=
  match u, v with
  | Fin a, Fin b => a =? b
  | _, _ => false
  end.

#[export] Instance num_ArithTraits : ArithTraits num := {|
  ATS_zero := Fin 0;
  ATS_one := Fin 1;
  s_add := num_lift2 Z.add;
  s_sub := num_lift2 Z.sub;
  s_mul := num_lift2 Z.mul;
  s_neg := num_neg;
  s_eq := num_eq
|}.

(** Example memories: 2 x 2 column-major views X at addresses 0..3, Y at
    4..7 and R at 8..11. *)
Definition ex_X : View2 := col_major 0 2 2.
Definition ex_Y : View2 := col_major 4 2 2.
Definition ex_R : View2 := col_major 8 2 2.

Definition ex_mem : gmap Z num :=
  list_to_map
    [(0, Fin 1); (1, Fin 2); (2, Fin 3); (3, Fin 4);
     (4, Fin 10); (5, Fin 20); (6, Fin 30); (7, Fin 40);
     (8, Fin 0); (9, Fin 0); (10, Fin 0); (11, Fin 0)].

(** Y holds not-a-number entries. *)
Definition ex_mem_nan : gmap Z num :=
  list_to_map
    [(0, Fin 1); (1, Fin 2); (2, Fin 3); (3, Fin 4);
     (4, NaN); (5, NaN); (6, NaN); (7, NaN);
     (8, Fin 0); (9, Fin 0); (10, Fin 0); (11, Fin 0)].

(** Y is not mapped at all. *)
Definition ex_mem_noY : gmap Z num :=
  list_to_map
    [(0, Fin 1); (1, Fin 2); (2, Fin 3); (3, Fin 4);
     (8, Fin 0); (9, Fin 0); (10, Fin 0); (11, Fin 0)].

(** The entries a memory holds under an address function. *)
Definition values_of (m : gmap Z num) (p : Z * Z -> Z) (c : Z * Z) : num :=
  default NaN (m !! p c).

(** The contents of a 2 x 2 view after a run, row by row; [None] if the run
    failed. *)
Definition read_2x2 (V : View2) (o : option (gmap Z num))
    : option (list (option num)) :=
  m ← o;
  Some [m !! addr2 V 0 0; m !! addr2 V 0 1;
        m !! addr2 V 1 0; m !! addr2 V 1 1].

(** Rank-1 views over the same addresses, and per-column coefficients. *)
Definition ex_x1 : View1 := vector 0 4.
Definition ex_y1 : View1 := vector 4 4.
Definition ex_r1 : View1 := vector 8 4.

(** A coefficient view of two entries at 12..13, and an empty one. *)
Definition ex_av : View1 := vector 12 2.
Definition ex_empty : View1 := vector 14 0.

Definition ex_mem_av : gmap Z num :=
  list_to_map
    [(0, Fin 1); (1, Fin 2); (2, Fin 3); (3, Fin 4);
     (4, Fin 10); (5, Fin 20); (6, Fin 30); (7, Fin 40);
     (8, Fin 0); (9, Fin 0); (10, Fin 0); (11, Fin 0);
     (12, Fin 3); (13, Fin 5)].

(** A second coefficient view at 16..17, a memory that holds both, and the
    same memory under other initial contents of R. *)
Definition ex_bv : View1 := vector 16 2.

Definition ex_mem_ab : gmap Z num :=
  list_to_map
    [(0, Fin 1); (1, Fin 2); (2, Fin 3); (3, Fin 4);
     (4, Fin 10); (5, Fin 20); (6, Fin 30); (7, Fin 40);
     (8, Fin 0); (9, Fin 0); (10, Fin 0); (11, Fin 0);
     (12, Fin 3); (13, Fin 5); (16, Fin (-1)); (17, Fin 2)].

Definition ex_mem_ab_R : gmap Z num :=
  list_to_map
    [(0, Fin 1); (1, Fin 2); (2, Fin 3); (3, Fin 4);
     (4, Fin 10); (5, Fin 20); (6, Fin 30); (7, Fin 40);
     (8, Fin 7); (9, NaN); (10, Fin (-5)); (11, Fin 99);
     (12, Fin 3); (13, Fin 5); (16, Fin (-1)); (17, Fin 2)].

(** The entries a memory holds for a coefficient view. *)
Definition coeffs_of (m : gmap Z num) (v : View1) (k : Z) : num :=
  default NaN (m !! addr1 v k).

(** 1 x 1 views: R at address 0, X at 1, Y at 2; a coefficient view of one
    entry at address 0, the entry of R, and one at 3; two memories that
    differ in the contents of address 0 only. *)
Definition ex_alias_R : View2 := col_major 0 1 1.
Definition ex_alias_X : View2 := col_major 1 1 1.
Definition ex_alias_Y : View2 := col_major 2 1 1.
Definition ex_alias_av : View1 := vector 0 1.
Definition ex_alias_bv : View1 := vector 3 1.

Definition ex_alias_mem1 : gmap Z num :=
  list_to_map [(0, Fin 3); (1, Fin 5); (2, Fin 7); (3, Fin 1)].

Definition ex_alias_mem2 : gmap Z num :=
  list_to_map [(0, Fin 4); (1, Fin 5); (2, Fin 7); (3, Fin 1)].

(** A rank-1 view and a single-column rank-2 view of [INT_MAX] rows, and a
    single-column rank-2 view of four rows. *)
Definition ex_long : View1 := vector 0 INT_MAX.
Definition ex_tall : View2 := col_major 0 INT_MAX 1.

(** A view with a 32-bit [size_type] whose number of entries, 2 * 2^31, is
    not a value of that type. *)
Definition ex_wrap : View2 :=
  {| v2_layout := LayoutLeft; v2_size_type := Size32; v2_data := 0;
     v2_dim0 := 2; v2_dim1 := 2 ^ 31; v2_stride0 := 1; v2_stride1 := 2 |}.
Definition ex_col : View2 := col_major 0 4 1.

(** The kernel R = 3*X - Y on the 2 x 2 views, and the memory it leaves
    from [ex_mem]. *)
Definition ex_kernel : Functor num :=
  MV_Axpby_Functor 2 (-1) IndexInt ex_R ex_X ex_Y
    (CoeffScalar (Fin 3)) (CoeffScalar (Fin 0)).

Definition ex_result : gmap Z num :=
  list_to_map
    [(0, Fin 1); (1, Fin 2); (2, Fin 3); (3, Fin 4);
     (4, Fin 10); (5, Fin 20); (6, Fin 30); (7, Fin 40);
     (8, Fin (-7)); (9, Fin (-14)); (10, Fin (-21)); (11, Fin (-28))].

(** Rank-1 views of two entries over X, Y and R. *)
Definition ex_x2 : View1 := vector 0 2.
Definition ex_y2 : View1 := vector 4 2.
Definition ex_r2 : View1 := vector 8 2.

(** Views without rows. *)
Definition ex_norows (data : Z) : View2 := col_major data 0 3.

(** * The [rot] unification layer *)

Module Rot.

Local Open Scope string_scope.

(** The preprocessor state of a translation unit: whether
    [KOKKOSKERNELS_ETI_ONLY] is defined, and the value of
    [KOKKOSKERNELS_IMPL_COMPILE_LIBRARY]. *)
Record Config := {
  ETI_ONLY : bool;
  COMPILE_LIBRARY : bool
}.

(** What [Rot<ExecutionSpace, VectorView, ScalarView, tpl, eti>::rot] is in a
    translation unit: the declaration of the primary template, or the body
    of the specialization, [Rot_Invoke] between [pushRegion (region)] and
    [popRegion ()]. *)
Inductive RotDef :=
| Declared
| Rot_Invoke (region : string).

(** The specialization [Rot<..., false, KOKKOSKERNELS_IMPL_COMPILE_LIBRARY>]
    exists under
    [#if !defined(KOKKOSKERNELS_ETI_ONLY) || KOKKOSKERNELS_IMPL_COMPILE_LIBRARY]
    and matches the flags [(false, KOKKOSKERNELS_IMPL_COMPILE_LIBRARY)];
    every other instantiation is the primary template. *)
Definition Rot (cfg : Config) (tpl_spec_avail eti_spec_avail : bool)
    : RotDef :=
  if (negb (ETI_ONLY cfg) || COMPILE_LIBRARY cfg)
     && negb tpl_spec_avail
     && Bool.eqb eti_spec_avail (COMPILE_LIBRARY cfg)
  then Rot_Invoke (if COMPILE_LIBRARY cfg then "KokkosBlas::rot[ETI]"
                   else "KokkosBlas::rot[noETI]")
  else Declared.

(** The implementation a call in user code ends up with. *)
Inductive Selected :=
| Override
| Library (d : RotDef)
| Header (d : RotDef)
| Undefined.

(** Modelled from the spec: the third-party specializations of
    [KokkosBlas1_rot_tpl_spec_decl.hpp] are not among the sources; where
    [rot_tpl_spec_avail] holds, the override is what the call resolves to.

    In user code [KOKKOSKERNELS_IMPL_COMPILE_LIBRARY] is false.  A body
    instantiated there is used as it is.  Otherwise the call refers to the
    declaration of the primary template: with an ETI instantiation,
    [KOKKOSBLAS1_ROT_ETI_SPEC_DECL] declares [Rot<..., false, true>] as
    [extern template], and the definition is the one
    [KOKKOSBLAS1_ROT_ETI_SPEC_INST] instantiates while the library is
    compiled; without one, nothing defines it. *)
Definition select (eti_only : bool) (tpl_spec_avail eti_spec_avail : bool)
    : Selected :=
  match Rot {| ETI_ONLY := eti_only; COMPILE_LIBRARY := false |}
          tpl_spec_avail eti_spec_avail with
  | Rot_Invoke region => Header (Rot_Invoke region)
  | Declared =>
      if tpl_spec_avail then Override
      else if eti_spec_avail then
        Library (Rot {| ETI_ONLY := eti_only; COMPILE_LIBRARY := true |}
                   false true)
      else Undefined
  end.

(** The call runs the generic body [Rot_Invoke]. *)
Definition uses_generic_body (s : Selected) : bool :=
  match s with
  | Library (Rot_Invoke _) | Header (Rot_Invoke _) => true
  | _ => false
  end.

End Rot.

(** * Properties *)

(** ** Loops and sequencing *)

Lemma for_each_app {A S : Type} (l1 l2 : list A) (body : A -> S -> option S)
    (s : S) :
  for_each (l1 ++ l2) body s =
  match for_each l1 body s with
  | Some s' => for_each l2 body s'
  | None => None
  end.
Proof.
  revert s. induction l1 as [|x l1 IH]; intros s; simpl; [reflexivity|].
  destruct (body x s); [apply IH | reflexivity].
Qed.

Lemma for_each_ext {A S : Type} (l : list A) (f g : A -> S -> option S)
    (s : S) :
  (forall x s', In x l -> f x s' = g x s') ->
  for_each l f s = for_each l g s.
Proof.
  revert s. induction l as [|x l IH]; intros s Hfg; simpl; [reflexivity|].
  rewrite (Hfg x s) by (left; reflexivity).
  destruct (g x s); [|reflexivity].
  apply IH. intros y s' Hy. apply Hfg. right. exact Hy.
Qed.

Lemma for_each_singleton {A S : Type} (x : A) (f : A -> S -> option S)
    (s : S) :
  for_each [x] f s = f x s.
Proof. simpl. destruct (f x s); reflexivity. Qed.

Lemma for_each_nested {A B S : Type} (l1 : list A) (l2 : list B)
    (f : A -> B -> S -> option S) (s : S) :
  for_each l1 (fun i => for_each l2 (f i)) s =
  for_each (list_prod l1 l2) (fun c => f (fst c) (snd c)) s.
Proof.
  revert s. induction l1 as [|i l1 IH]; intros s; simpl; [reflexivity|].
  rewrite for_each_app.
  assert (Hmap : forall s0, for_each (map (fun y => (i, y)) l2)
                   (fun c => f (fst c) (snd c)) s0 = for_each l2 (f i) s0).
  { clear. induction l2 as [|k l2 IH2]; intros s0; simpl; [reflexivity|].
    destruct (f i k s0); [apply IH2 | reflexivity]. }
  rewrite Hmap. destruct (for_each l2 (f i) s); [apply IH | reflexivity].
Qed.

Lemma bind_Some_r {S : Type} (o : option S) : (o ≫= Some) = o.
Proof. destruct o; reflexivity. Qed.

Lemma range_elem (n k : Z) : In k (range n) <-> 0 <= k < n.
Proof.
  unfold range. rewrite <- list_elem_of_In, elem_of_seqZ. lia.
Qed.

Lemma range_NoDup (n : Z) : List.NoDup (range n).
Proof. apply NoDup_ListNoDup, NoDup_seqZ. Qed.

Lemma list_prod_NoDup {A B : Type} (l1 : list A) (l2 : list B) :
  List.NoDup l1 -> List.NoDup l2 -> List.NoDup (list_prod l1 l2).
Proof.
  intros H1 H2. induction H1 as [|x l1 Hx H1 IH]; simpl; [constructor|].
  apply List.NoDup_app.
  - clear -H2. induction H2 as [|y l2 Hy H2 IH2]; simpl; constructor.
    + rewrite in_map_iff. intros (y' & Heq & Hy'). congruence.
    + exact IH2.
  - exact IH.
  - intros [u v]. rewrite in_map_iff, in_prod_iff.
    intros (y & Heq & _) [Hu _]. congruence.
Qed.

Lemma grid_elem (rows cols : Z) (c : Z * Z) :
  In c (list_prod (range rows) (range cols)) <-> in_grid rows cols c.
Proof.
  destruct c as [i k]. rewrite in_prod_iff, !range_elem. reflexivity.
Qed.

Lemma grid_NoDup (rows cols : Z) :
  List.NoDup (list_prod (range rows) (range cols)).
Proof. apply list_prod_NoDup; apply range_NoDup. Qed.

Section AxpbyProofs.

Context {T : Type} `{ATS : ArithTraits T}.

Implicit Types (m : gmap Z T) (a b av bv : Coeff T).

Lemma tags_cases (s : Z) : In s tags -> s = 0 \/ s = -1 \/ s = 1 \/ s = 2.
Proof. unfold tags. simpl. intuition congruence. Qed.

(** *** The functors, entry by entry *)

Lemma MV_call_cells sx sy n (r x y : View2) a b i m :
  In sx tags -> In sy tags ->
  MV_Axpby_Functor_call sx sy n r x y a b i m =
  for_each (range n)
    (fun k => cell sx sy a b k (addr2 x i k) (addr2 y i k) (addr2 r i k)) m.
Proof.
  intros Hx Hy.
  apply tags_cases in Hx as [-> | [-> | [-> | ->]]];
    apply tags_cases in Hy as [-> | [-> | [-> | ->]]];
    unfold MV_Axpby_Functor_call, when_; simpl;
    rewrite bind_Some_r; apply for_each_ext; intros k m' _;
    unfold cell, read_if, rhs; simpl; reflexivity.
Qed.

Lemma Unroll_call_cells sx sy n (r x y : View2) a b i m :
  In sx tags -> In sy tags ->
  MV_Axpby_Unroll_Functor_call sx sy n r x y a b i m =
  for_each (range n)
    (fun k => cell sx sy a b k (addr2 x i k) (addr2 y i k) (addr2 r i k)) m.
Proof.
  intros Hx Hy.
  apply tags_cases in Hx as [-> | [-> | [-> | ->]]];
    apply tags_cases in Hy as [-> | [-> | [-> | ->]]];
    unfold MV_Axpby_Unroll_Functor_call, when_; simpl;
    rewrite bind_Some_r; apply for_each_ext; intros k m' _;
    unfold cell, read_if, rhs; simpl; reflexivity.
Qed.

Lemma V_call_cell sx sy (r x y : View1) a b i m :
  In sx tags -> In sy tags ->
  V_Axpby_Functor_call sx sy r x y a b i m =
  cell sx sy a b 0 (addr1 x i) (addr1 y i) (addr1 r i) m.
Proof.
  intros Hx Hy.
  apply tags_cases in Hx as [-> | [-> | [-> | ->]]];
    apply tags_cases in Hy as [-> | [-> | [-> | ->]]];
    unfold V_Axpby_Functor_call, when_; simpl;
    rewrite bind_Some_r; unfold cell, read_if, rhs; simpl; reflexivity.
Qed.

(** What one assignment does when its reads succeed. *)
Lemma cell_eval sx sy a b k px py pr m (ca x cb y : T) :
  In sx tags -> In sy tags ->
  (sx = 2 -> coeff_at a k m = Some ca) ->
  (sx <> 0 -> m !! px = Some x) ->
  (sy = 2 -> coeff_at b k m = Some cb) ->
  (sy <> 0 -> m !! py = Some y) ->
  is_Some (m !! pr) ->
  cell sx sy a b k px py pr m = Some (<[pr := rhs sx sy ca x cb y]> m).
Proof.
  intros Hsx Hsy Ha Hx Hb Hy [v Hv].
  apply tags_cases in Hsx as [-> | [-> | [-> | ->]]];
    apply tags_cases in Hsy as [-> | [-> | [-> | ->]]];
    unfold cell, read_if, load, store, rhs; simpl;
    rewrite ?Ha, ?Hx, ?Hb, ?Hy by (reflexivity || lia); simpl;
    rewrite ?Ha, ?Hx, ?Hb, ?Hy by (reflexivity || lia); simpl;
    rewrite Hv; reflexivity.
Qed.

(** The functors' coefficient read returns the coefficient of the column. *)
Lemma coeff_value_at a k m (v : T) :
  coeff_value a k m v -> coeff_at a k m = Some v.
Proof.
  destruct a as [s | w]; simpl.
  - intros ->. reflexivity.
  - intros H. exact H.
Qed.

Lemma coeff_at_stable a k m m0 :
  (forall p, coeff_cell a k = Some p -> m !! p = m0 !! p) ->
  coeff_at a k m = coeff_at a k m0.
Proof.
  destruct a as [c | v]; simpl; [reflexivity|].
  intros H. unfold load. apply H. reflexivity.
Qed.

(** *** A kernel as a sequence of assignments

    [cs] lists the entries in the order they are assigned.  If the output
    entries are pairwise distinct and no output entry is an operand entry of
    another index or a coefficient entry, every assignment reads the initial
    values, and the final memory holds [rhs] at every output entry. *)
Section Cells.

Variables (sx sy : Z) (a b : Coeff T).
Variables (px py pr : Z * Z -> Z).
Variables (xv yv : Z * Z -> T) (ca cb : Z -> T).
Variable m0 : gmap Z T.
Variable cs : list (Z * Z).

Hypothesis Hsx : In sx tags.
Hypothesis Hsy : In sy tags.
Hypothesis Halloc : forall c, In c cs -> is_Some (m0 !! pr c).
Hypothesis Hxv : sx <> 0 -> forall c, In c cs -> m0 !! px c = Some (xv c).
Hypothesis Hyv : sy <> 0 -> forall c, In c cs -> m0 !! py c = Some (yv c).
Hypothesis Hca :
  sx = 2 -> forall c, In c cs -> coeff_at a (snd c) m0 = Some (ca (snd c)).
Hypothesis Hcb :
  sy = 2 -> forall c, In c cs -> coeff_at b (snd c) m0 = Some (cb (snd c)).
Hypothesis Hrr :
  forall c c', In c cs -> In c' cs -> c <> c' -> pr c <> pr c'.
Hypothesis Hrx :
  sx <> 0 -> forall c c', In c cs -> In c' cs -> c <> c' -> pr c <> px c'.
Hypothesis Hry :
  sy <> 0 -> forall c c', In c cs -> In c' cs -> c <> c' -> pr c <> py c'.
Hypothesis Hra :
  sx = 2 -> forall c c', In c cs -> In c' cs ->
  coeff_cell a (snd c') <> Some (pr c).
Hypothesis Hrb :
  sy = 2 -> forall c c', In c cs -> In c' cs ->
  coeff_cell b (snd c') <> Some (pr c).

Lemma cells_correct_from (todo done : list (Z * Z)) m :
  (forall c, In c (done ++ todo) -> In c cs) ->
  List.NoDup (done ++ todo) ->
  (forall c, In c done ->
     m !! pr c = Some (rhs sx sy (ca (snd c)) (xv c) (cb (snd c)) (yv c))) ->
  (forall p, (forall c, In c done -> p <> pr c) -> m !! p = m0 !! p) ->
  exists m',
    for_each todo (cell_at sx sy a b px py pr) m = Some m' /\
    (forall c, In c (done ++ todo) ->
       m' !! pr c = Some (rhs sx sy (ca (snd c)) (xv c) (cb (snd c)) (yv c))) /\
    (forall p, (forall c, In c (done ++ todo) -> p <> pr c) ->
       m' !! p = m0 !! p).
Proof.
  revert done m. induction todo as [|c rest IH]; intros done m Hsub Hnd Hdone Hoff.
  - exists m. rewrite app_nil_r in *. simpl. auto.
  - assert (Hc : In c cs) by (apply Hsub, in_or_app; right; left; reflexivity).
    assert (Hcdone : forall c', In c' done -> c' <> c).
    { intros c' Hc' ->. apply NoDup_remove_2 in Hnd. apply Hnd.
      apply in_or_app. left. exact Hc'. }
    assert (Hdcs : forall c', In c' done -> In c' cs).
    { intros c' Hc'. apply Hsub, in_or_app. left. exact Hc'. }
    assert (Hstep : cell_at sx sy a b px py pr c m =
              Some (<[pr c := rhs sx sy (ca (snd c)) (xv c) (cb (snd c)) (yv c)]> m)).
    { unfold cell_at. apply cell_eval; try assumption.
      - intros E. rewrite <- (Hca E c Hc). apply coeff_at_stable.
        intros p Hp. apply Hoff. intros c' Hc' ->.
        apply (Hra E c' c); auto.
      - intros E. rewrite <- (Hxv E c Hc). apply Hoff.
        intros c' Hc' Heq. apply (Hrx E c' c); auto.
      - intros E. rewrite <- (Hcb E c Hc). apply coeff_at_stable.
        intros p Hp. apply Hoff. intros c' Hc' ->.
        apply (Hrb E c' c); auto.
      - intros E. rewrite <- (Hyv E c Hc). apply Hoff.
        intros c' Hc' Heq. apply (Hry E c' c); auto.
      - rewrite Hoff; [apply Halloc; exact Hc|].
        intros c' Hc' Heq. apply (Hrr c' c); auto. }
    simpl. rewrite Hstep.
    destruct (IH (done ++ [c])
                (<[pr c := rhs sx sy (ca (snd c)) (xv c) (cb (snd c)) (yv c)]> m))
      as (m' & Hrun & Hval & Hfar).
    + intros c'. rewrite <- app_assoc. simpl. apply Hsub.
    + rewrite <- app_assoc. simpl. exact Hnd.
    + intros c' Hc'. apply in_app_or in Hc' as [Hc' | [<- | []]].
      * rewrite lookup_insert_ne; [apply Hdone; exact Hc'|].
        intros Heq. apply (Hrr c c'); auto.
        intros ->. apply (Hcdone _ Hc'). reflexivity.
      * apply lookup_insert_eq.
    + intros p Hp. rewrite lookup_insert_ne.
      * apply Hoff. intros c' Hc'. apply Hp, in_or_app. left. exact Hc'.
      * intros Heq. apply (Hp c); [|symmetry; exact Heq].
        apply in_or_app. right. left. reflexivity.
    + exists m'. rewrite <- app_assoc in Hval, Hfar. simpl in Hval, Hfar.
      auto.
Qed.

Lemma cells_correct :
  List.NoDup cs ->
  exists m',
    for_each cs (cell_at sx sy a b px py pr) m0 = Some m' /\
    (forall c, In c cs ->
       m' !! pr c = Some (rhs sx sy (ca (snd c)) (xv c) (cb (snd c)) (yv c))) /\
    (forall p, (forall c, In c cs -> p <> pr c) -> m' !! p = m0 !! p).
Proof.
  intros Hnd.
  apply (cells_correct_from cs [] m0); simpl; auto.
  intros c [].
Qed.

End Cells.

(** *** Kernels as sequences of assignments *)

Lemma MV_kernel_cells sx sy st n (r x y : View2) a b m :
  In sx tags -> In sy tags ->
  run_launch (parallel_for n (MV_Axpby_Functor sx sy st r x y a b)) m =
  for_each (list_prod (range n) (range (to_index st (v2_dim1 x))))
    (cell_at sx sy a b (at2 x) (at2 y) (at2 r)) m.
Proof.
  intros Hx Hy. unfold run_launch. simpl.
  rewrite (for_each_ext _ _ (fun i => for_each
             (range (to_index st (v2_dim1 x)))
             (fun k => cell sx sy a b k (addr2 x i k) (addr2 y i k)
                         (addr2 r i k))))
    by (intros; apply MV_call_cells; assumption).
  rewrite for_each_nested. reflexivity.
Qed.

Lemma Unroll_kernel_cells sx sy U st n (r x y : View2) a b m :
  In sx tags -> In sy tags ->
  run_launch (parallel_for n (MV_Axpby_Unroll_Functor sx sy U st r x y a b)) m =
  for_each (list_prod (range n) (range U))
    (cell_at sx sy a b (at2 x) (at2 y) (at2 r)) m.
Proof.
  intros Hx Hy. unfold run_launch. simpl.
  rewrite (for_each_ext _ _ (fun i => for_each (range U)
             (fun k => cell sx sy a b k (addr2 x i k) (addr2 y i k)
                         (addr2 r i k))))
    by (intros; apply Unroll_call_cells; assumption).
  rewrite for_each_nested. reflexivity.
Qed.

Lemma V_kernel_cells sx sy st n (r x y : View1) a b m :
  In sx tags -> In sy tags ->
  run_launch (parallel_for n (V_Axpby_Functor sx sy st r x y a b)) m =
  for_each (list_prod (range n) (range 1))
    (cell_at sx sy a b (at1 x) (at1 y) (at1 r)) m.
Proof.
  intros Hx Hy. unfold run_launch. simpl.
  rewrite (for_each_ext _ _ (fun i => for_each (range 1)
             (fun k => cell sx sy a b k (addr1 x i) (addr1 y i)
                         (addr1 r i)))).
  - rewrite for_each_nested. reflexivity.
  - intros i m' _. change (range 1) with [0]. rewrite for_each_singleton.
    apply V_call_cell; assumption.
Qed.

Lemma rhs_formula sx sy (ca x cb y : T) :
  (forall u v : T, s_sub u v = s_add u (s_neg v)) ->
  In sx tags -> In sy tags ->
  rhs sx sy ca x cb y = sum_terms (term sx ca x) (term sy cb y).
Proof.
  intros Hsub Hx Hy.
  apply tags_cases in Hx as [-> | [-> | [-> | ->]]];
    apply tags_cases in Hy as [-> | [-> | [-> | ->]]];
    unfold rhs, term, sum_terms; simpl; rewrite ?Hsub; reflexivity.
Qed.

(** Any duplicate-free enumeration [cs] of the grid ends in the same
    memory: [rhs] at the output entries, the initial contents elsewhere. *)
Lemma cells_final sx sy a b (px py pr : Z * Z -> Z) rows cols
    (xv yv : Z * Z -> T) (ca cb : Z -> T) m0 (cs : list (Z * Z)) :
  In sx tags -> In sy tags ->
  kernel_pre sx sy a b px py pr rows cols xv yv ca cb m0 ->
  List.NoDup cs -> (forall c, In c cs <-> in_grid rows cols c) ->
  exists m',
    for_each cs (cell_at sx sy a b px py pr) m0 = Some m' /\
    (forall c, in_grid rows cols c ->
       m' !! pr c = Some (rhs sx sy (ca (snd c)) (xv c) (cb (snd c)) (yv c))) /\
    (forall p, (forall c, in_grid rows cols c -> p <> pr c) ->
       m' !! p = m0 !! p).
Proof.
  intros Hsx Hsy (Halloc & Hrr & Hx & Hy & Ha & Hb) Hnd Hcs.
  destruct (cells_correct sx sy a b px py pr xv yv ca cb m0 cs)
    as (m' & Hrun & Hval & Hfar); try assumption.
  - intros c Hc. apply Halloc, Hcs, Hc.
  - intros E c Hc. apply (Hx E), Hcs, Hc.
  - intros E c Hc. apply (Hy E), Hcs, Hc.
  - intros E c Hc. apply Hcs in Hc. apply coeff_value_at, (Ha E), Hc.
  - intros E c Hc. apply Hcs in Hc. apply coeff_value_at, (Hb E), Hc.
  - intros c c' Hc Hc' Hne. apply Hcs in Hc, Hc'.
    apply (Hrr c c'); assumption.
  - intros E c c' Hc Hc' Hne. apply Hcs in Hc, Hc'.
    apply (Hx E c' Hc'); assumption.
  - intros E c c' Hc Hc' Hne. apply Hcs in Hc, Hc'.
    apply (Hy E c' Hc'); assumption.
  - intros E c c' Hc Hc'. apply Hcs in Hc, Hc'.
    apply (Ha E (snd c')); [apply Hc' | assumption].
  - intros E c c' Hc Hc'. apply Hcs in Hc, Hc'.
    apply (Hb E (snd c')); [apply Hc' | assumption].
  - exists m'. split; [exact Hrun|]. split.
    + intros c Hc. apply Hval, Hcs, Hc.
    + intros p Hp. apply Hfar. intros c Hc. apply Hp, Hcs, Hc.
Qed.

(** A grid of assignments meets the formula. *)
Lemma grid_formula sx sy a b (px py pr : Z * Z -> Z) rows cols
    (xv yv : Z * Z -> T) (ca cb : Z -> T) m0 :
  (forall u v : T, s_sub u v = s_add u (s_neg v)) ->
  In sx tags -> In sy tags ->
  kernel_pre sx sy a b px py pr rows cols xv yv ca cb m0 ->
  exists m',
    for_each (list_prod (range rows) (range cols))
      (cell_at sx sy a b px py pr) m0 = Some m' /\
    kernel_post sx sy pr rows cols xv yv ca cb m'.
Proof.
  intros Hsub Hsx Hsy Hpre.
  destruct (cells_final sx sy a b px py pr rows cols xv yv ca cb m0
              (list_prod (range rows) (range cols)) Hsx Hsy Hpre)
    as (m' & Hrun & Hval & _).
  - apply grid_NoDup.
  - intros c. apply grid_elem.
  - exists m'. split; [exact Hrun|].
    intros c Hc. rewrite <- rhs_formula by assumption. apply Hval, Hc.
Qed.

(** The rows of a kernel may be visited in any order: the final memory is
    that of the run in increasing order. *)
Lemma row_order_irrelevant sx sy st n (r x y : View2) a b
    (xv yv : Z * Z -> T) (ca cb : Z -> T) m0 (rows : list Z) :
  In sx tags -> In sy tags ->
  kernel_pre sx sy a b (at2 x) (at2 y) (at2 r) n (to_index st (v2_dim1 x))
    xv yv ca cb m0 ->
  Permutation rows (range n) ->
  for_each rows (call (MV_Axpby_Functor sx sy st r x y a b)) m0 =
  run_launch (parallel_for n (MV_Axpby_Functor sx sy st r x y a b)) m0.
Proof.
  intros Hsx Hsy Hpre Hperm.
  set (cols := to_index st (v2_dim1 x)) in *.
  rewrite MV_kernel_cells by assumption. fold cols.
  assert (Hleft : for_each rows (call (MV_Axpby_Functor sx sy st r x y a b)) m0
            = for_each (list_prod rows (range cols))
                (cell_at sx sy a b (at2 x) (at2 y) (at2 r)) m0).
  { cbn [call]. fold cols.
    rewrite (for_each_ext _ _ (fun i => for_each (range cols)
               (fun k => cell sx sy a b k (addr2 x i k) (addr2 y i k)
                           (addr2 r i k))))
      by (intros; apply MV_call_cells; assumption).
    rewrite for_each_nested. reflexivity. }
  rewrite Hleft.
  destruct (cells_final sx sy a b (at2 x) (at2 y) (at2 r) n cols xv yv ca cb
              m0 (list_prod rows (range cols)) Hsx Hsy Hpre)
    as (m1 & -> & Hv1 & Hf1).
  { apply list_prod_NoDup; [|apply range_NoDup].
    apply NoDup_ListNoDup. rewrite Hperm. apply NoDup_ListNoDup, range_NoDup. }
  { intros [i k]. rewrite in_prod_iff, range_elem. unfold in_grid. simpl.
    rewrite <- (range_elem n i), <- !list_elem_of_In, Hperm. reflexivity. }
  destruct (cells_final sx sy a b (at2 x) (at2 y) (at2 r) n cols xv yv ca cb
              m0 (list_prod (range n) (range cols)) Hsx Hsy Hpre)
    as (m2 & -> & Hv2 & Hf2).
  { apply grid_NoDup. }
  { intros c. apply grid_elem. }
  f_equal. apply map_eq. intros p.
  destruct (in_dec Z.eq_dec p
              (map (at2 r) (list_prod (range n) (range cols)))) as [Hin | Hout].
  - apply in_map_iff in Hin as (c & <- & Hc). apply grid_elem in Hc.
    rewrite Hv1, Hv2 by exact Hc. reflexivity.
  - rewrite Hf1, Hf2; [reflexivity | |];
      intros c Hc ->; apply Hout, in_map, grid_elem, Hc.
Qed.


(** *** Two runs on memories that differ in the output only *)

Lemma coeff_at_agree a k m1 m2 :
  (forall p, coeff_cell a k = Some p -> m1 !! p = m2 !! p) ->
  coeff_at a k m1 = coeff_at a k m2.
Proof. apply coeff_at_stable. Qed.

Lemma cell_agree sx sy a b k px py pr m1 m2 :
  (sx = 2 -> coeff_at a k m1 = coeff_at a k m2) ->
  (sx <> 0 -> m1 !! px = m2 !! px) ->
  (sy = 2 -> coeff_at b k m1 = coeff_at b k m2) ->
  (sy <> 0 -> m1 !! py = m2 !! py) ->
  (is_Some (m1 !! pr) <-> is_Some (m2 !! pr)) ->
  (cell sx sy a b k px py pr m1 = None /\
   cell sx sy a b k px py pr m2 = None) \/
  (exists v, cell sx sy a b k px py pr m1 = Some (<[pr := v]> m1) /\
             cell sx sy a b k px py pr m2 = Some (<[pr := v]> m2)).
Proof.
  intros Ha Hx Hb Hy Hr. unfold cell, read_if, load.
  destruct (Z.eqb_spec sx 2) as [E2 | N2]; [rewrite (Ha E2)|];
    (destruct (Z.eqb_spec sx 0) as [E0 | N0]; simpl; [|rewrite (Hx N0)]);
    (destruct (Z.eqb_spec sy 2) as [F2 | G2]; [rewrite (Hb F2)|]);
    (destruct (Z.eqb_spec sy 0) as [F0 | G0]; simpl; [|rewrite (Hy G0)]);
    repeat match goal with
      | |- context [coeff_at ?c ?j m2] =>
          destruct (coeff_at c j m2); simpl; [|left; split; reflexivity]
      | |- context [m2 !! px] =>
          destruct (m2 !! px); simpl; [|left; split; reflexivity]
      | |- context [m2 !! py] =>
          destruct (m2 !! py); simpl; [|left; split; reflexivity]
      end;
    unfold store;
    destruct (m1 !! pr) as [v1|] eqn:E1, (m2 !! pr) as [v2|] eqn:E2';
    try (right; eexists; split; reflexivity);
    try (left; split; reflexivity);
    exfalso; destruct Hr as [H12 H21];
    first [ destruct H12 as [? ?]; [eexists; reflexivity | discriminate]
          | destruct H21 as [? ?]; [eexists; reflexivity | discriminate] ].
Qed.

Section Agree.

Variables (sx sy : Z) (a b : Coeff T).
Variables (px py pr : Z * Z -> Z).
Variable cs : list (Z * Z).

Hypothesis Hrx : forall c c', In c cs -> In c' cs -> pr c <> px c'.
Hypothesis Hry : forall c c', In c cs -> In c' cs -> pr c <> py c'.
Hypothesis Hra :
  forall c c', In c cs -> In c' cs -> coeff_cell a (snd c') <> Some (pr c).
Hypothesis Hrb :
  forall c c', In c cs -> In c' cs -> coeff_cell b (snd c') <> Some (pr c).

Lemma cells_agree_from (todo : list (Z * Z)) m1 m2 :
  (forall c, In c todo -> In c cs) ->
  (forall p, (forall c, In c todo -> p <> pr c) -> m1 !! p = m2 !! p) ->
  (forall c, In c todo -> (is_Some (m1 !! pr c) <-> is_Some (m2 !! pr c))) ->
  for_each todo (cell_at sx sy a b px py pr) m1 =
  for_each todo (cell_at sx sy a b px py pr) m2.
Proof.
  revert m1 m2. induction todo as [|c rest IH]; intros m1 m2 Hsub Hoff Hsome.
  - simpl. f_equal. apply map_eq. intros p. apply Hoff. intros c [].
  - assert (Hc : In c cs) by (apply Hsub; left; reflexivity).
    simpl. unfold cell_at at 1 3.
    destruct (cell_agree sx sy a b (snd c) (px c) (py c) (pr c) m1 m2)
      as [[-> ->] | (v & -> & ->)].
    + intros _. apply coeff_at_agree. intros p Hp. apply Hoff.
      intros c' Hc' ->. apply (Hra c' c); auto.
    + intros _. apply Hoff. intros c' Hc' Heq. apply (Hrx c' c); auto.
    + intros _. apply coeff_at_agree. intros p Hp. apply Hoff.
      intros c' Hc' ->. apply (Hrb c' c); auto.
    + intros _. apply Hoff. intros c' Hc' Heq. apply (Hry c' c); auto.
    + apply Hsome. left. reflexivity.
    + reflexivity.
    + apply IH.
      * intros c' Hc'. apply Hsub. right. exact Hc'.
      * intros p Hp. destruct (decide (p = pr c)) as [-> | Hne].
        -- rewrite !lookup_insert_eq. reflexivity.
        -- rewrite !lookup_insert_ne by congruence.
           apply Hoff. intros c' [<- | Hc']; [exact Hne | apply Hp, Hc'].
      * intros c' Hc'. destruct (decide (pr c' = pr c)) as [-> | Hne].
        -- rewrite !lookup_insert_eq. split; intros _; eexists; reflexivity.
        -- rewrite !lookup_insert_ne by congruence. apply Hsome. right.
           exact Hc'.
Qed.

End Agree.

(** A grid of assignments run from two memories that differ in the output
    entries only. *)
Lemma grid_agree sx sy a b (px py pr : Z * Z -> Z) rows cols m1 m2 :
  no_alias a b px py pr rows cols ->
  differ_only_on pr rows cols m1 m2 ->
  for_each (list_prod (range rows) (range cols))
    (cell_at sx sy a b px py pr) m1 =
  for_each (list_prod (range rows) (range cols))
    (cell_at sx sy a b px py pr) m2.
Proof.
  intros [Hxy Hco] [Hoff Hsome].
  apply (cells_agree_from sx sy a b px py pr
           (list_prod (range rows) (range cols))).
  - intros c c' Hc Hc'. apply grid_elem in Hc, Hc'. apply (Hxy c c'); auto.
  - intros c c' Hc Hc'. apply grid_elem in Hc, Hc'. apply (Hxy c c'); auto.
  - intros c c' Hc Hc'. apply grid_elem in Hc, Hc'.
    apply (Hco c (snd c')); [assumption | apply Hc'].
  - intros c c' Hc Hc'. apply grid_elem in Hc, Hc'.
    apply (Hco c (snd c')); [assumption | apply Hc'].
  - auto.
  - intros p Hp. apply Hoff. intros c Hc. apply Hp, grid_elem, Hc.
  - intros c Hc. apply Hsome, grid_elem, Hc.
Qed.

(** *** The dispatch functions *)

Lemma dispatch_tags_valid (a b : Z) :
  In (fst (dispatch_tags a b)) tags /\ In (snd (dispatch_tags a b)) tags.
Proof.
  unfold dispatch_tags, tags.
  repeat (destruct (_ && _); [simpl; tauto|]). simpl. tauto.
Qed.

Lemma MV_Axpby_Generic_launch st (r x y : View2) av bv (p q : Z) :
  MV_Axpby_Generic st r av x bv y p q =
  [parallel_for (to_index st (v2_dim0 x))
     (MV_Axpby_Functor (fst (dispatch_tags p q)) (snd (dispatch_tags p q))
        st r x y av bv)].
Proof.
  unfold MV_Axpby_Generic, dispatch_tags.
  repeat (destruct (_ && _); [reflexivity|]). reflexivity.
Qed.

Lemma MV_Axpby_Unrolled_launch U st (r x y : View2) av bv (p q : Z) :
  MV_Axpby_Unrolled U st r av x bv y p q =
  [parallel_for (to_index st (v2_dim0 x))
     (MV_Axpby_Unroll_Functor (fst (dispatch_tags p q))
        (snd (dispatch_tags p q)) U st r x y av bv)].
Proof.
  unfold MV_Axpby_Unrolled, dispatch_tags.
  repeat (destruct (_ && _); [reflexivity|]). reflexivity.
Qed.

Lemma V_Axpby_Generic_launch st (r x y : View1) av bv (p q : Z) :
  V_Axpby_Generic st r av x bv y p q =
  [parallel_for (to_index st (v1_dim0 x))
     (V_Axpby_Functor (fst (dispatch_tags p q)) (snd (dispatch_tags p q))
        st r x y av bv)].
Proof.
  unfold V_Axpby_Generic, dispatch_tags.
  repeat (destruct (_ && _); [reflexivity|]). reflexivity.
Qed.

Lemma run_single (l : Launch T) m : run [l] m = run_launch l m.
Proof. unfold run. apply for_each_singleton. Qed.

(** *** The three execution paths *)

Lemma Unrolled_generic n st (r x y : View2) av bv (p q : Z) m :
  to_index st (v2_dim1 x) = n ->
  run (MV_Axpby_Unrolled n st r av x bv y p q) m =
  run (MV_Axpby_Generic st r av x bv y p q) m.
Proof.
  intros Hn. rewrite MV_Axpby_Unrolled_launch, MV_Axpby_Generic_launch.
  rewrite !run_single.
  destruct (dispatch_tags_valid p q) as [Hx Hy].
  rewrite Unroll_kernel_cells, MV_kernel_cells by assumption.
  rewrite Hn. reflexivity.
Qed.

Lemma subview_at (V : View2) (c : Z * Z) :
  snd c = 0 -> at1 (subview V 0) c = at2 V c.
Proof.
  intros Hc. unfold at1, at2, addr1, subview. simpl. unfold addr2.
  rewrite Hc. lia.
Qed.

Lemma V_generic st (r x y : View2) av bv (p q : Z) m :
  to_index st (v2_dim1 x) = 1 ->
  run (V_Axpby_Generic st (subview r 0) av (subview x 0) bv (subview y 0)
         p q) m =
  run (MV_Axpby_Generic st r av x bv y p q) m.
Proof.
  intros Hn. rewrite V_Axpby_Generic_launch, MV_Axpby_Generic_launch.
  rewrite !run_single.
  destruct (dispatch_tags_valid p q) as [Hx Hy].
  rewrite V_kernel_cells, MV_kernel_cells by assumption.
  rewrite Hn. simpl v1_dim0.
  apply for_each_ext. intros c m' Hc.
  apply grid_elem in Hc. destruct Hc as [_ Hk].
  assert (Hk0 : snd c = 0) by lia.
  unfold cell_at. rewrite !subview_at by exact Hk0. reflexivity.
Qed.

Lemma Invoke_Left_generic st (r x y : View2) av bv (p q : Z) m :
  run (MV_Axpby_Invoke_Left st r av x bv y p q) m =
  run (MV_Axpby_Generic st r av x bv y p q) m.
Proof.
  unfold MV_Axpby_Invoke_Left.
  destruct (Z.eqb_spec (to_index st (v2_dim1 x)) 1) as [E | _];
    [apply V_generic; exact E|].
  repeat (match goal with
          | |- context [to_index st (v2_dim1 x) =? ?n] =>
              destruct (Z.eqb_spec (to_index st (v2_dim1 x)) n) as [E | _];
              [apply Unrolled_generic; exact E|]
          end).
  reflexivity.
Qed.

(** X8.  [MV_Axpby_Invoke_Left] by column count: one column goes to the
    rank-1 dispatch on the column-0 subviews, 2 to 16 columns to the
    unrolled dispatch at exactly that width, and every other count (zero
    included) to the generic dispatch. *)
Lemma Invoke_Left_paths st (r x y : View2) av bv (p q : Z) :
  let numCols := to_index st (v2_dim1 x) in
  (numCols = 1 ->
   MV_Axpby_Invoke_Left st r av x bv y p q =
   V_Axpby_Generic st (subview r 0) av (subview x 0) bv (subview y 0) p q) /\
  (2 <= numCols <= 16 ->
   MV_Axpby_Invoke_Left st r av x bv y p q =
   MV_Axpby_Unrolled numCols st r av x bv y p q) /\
  (numCols < 1 \/ 16 < numCols ->
   MV_Axpby_Invoke_Left st r av x bv y p q =
   MV_Axpby_Generic st r av x bv y p q).
Proof.
  intros numCols. subst numCols. unfold MV_Axpby_Invoke_Left.
  repeat split.
  - intros ->. reflexivity.
  - intros Hn.
    destruct (Z.eqb_spec (to_index st (v2_dim1 x)) 1) as [E | _]; [lia|].
    repeat (match goal with
            | |- context [to_index st (v2_dim1 x) =? ?n] =>
                destruct (Z.eqb_spec (to_index st (v2_dim1 x)) n) as [E | ?];
                [rewrite E; reflexivity|]
            end).
    lia.
  - intros Hn.
    repeat (match goal with
            | |- context [to_index st (v2_dim1 x) =? ?n] =>
                destruct (Z.eqb_spec (to_index st (v2_dim1 x)) n) as [E | ?];
                [lia|]
            end).
    reflexivity.
Qed.

Lemma Invoke_Left_size_type st (r x y : View2) av bv (p q : Z) l :
  In l (MV_Axpby_Invoke_Left st r av x bv y p q) ->
  functor_size_type (launch_op l) = st.
Proof.
  unfold MV_Axpby_Invoke_Left.
  repeat (match goal with
          | |- context [to_index st (v2_dim1 x) =? ?n] =>
              destruct (to_index st (v2_dim1 x) =? n)
          end);
    rewrite ?V_Axpby_Generic_launch, ?MV_Axpby_Unrolled_launch,
      ?MV_Axpby_Generic_launch;
    intros [<- | []]; reflexivity.
Qed.

(** *** The index type *)

Lemma wrap_int_small (n : Z) : 0 <= n < 2 ^ 31 -> wrap_int n = n.
Proof.
  intros Hn. unfold wrap_int. rewrite Z.mod_small; lia.
Qed.

Lemma range_nonpos (n : Z) : n <= 0 -> range n = [].
Proof. intros Hn. unfold range. apply seqZ_nil. exact Hn. Qed.

Lemma Generic_index_irrelevant st1 st2 (r x y : View2) av bv (p q : Z) m :
  to_index st1 (v2_dim0 x) = to_index st2 (v2_dim0 x) ->
  (to_index st1 (v2_dim0 x) <= 0 \/
   to_index st1 (v2_dim1 x) = to_index st2 (v2_dim1 x)) ->
  run (MV_Axpby_Generic st1 r av x bv y p q) m =
  run (MV_Axpby_Generic st2 r av x bv y p q) m.
Proof.
  intros Hrows Hcols. rewrite !MV_Axpby_Generic_launch, !run_single.
  unfold run_launch. cbn [policy_end launch_op call]. rewrite <- Hrows.
  destruct Hcols as [H0 | Hc].
  - rewrite range_nonpos by exact H0. reflexivity.
  - apply for_each_ext. intros i m' _. cbn [call]. rewrite Hc. reflexivity.
Qed.

Lemma V_Generic_index_irrelevant st1 st2 (r x y : View1) av bv (p q : Z) m :
  to_index st1 (v1_dim0 x) = to_index st2 (v1_dim0 x) ->
  run (V_Axpby_Generic st1 r av x bv y p q) m =
  run (V_Axpby_Generic st2 r av x bv y p q) m.
Proof.
  intros Hrows. rewrite !V_Axpby_Generic_launch, !run_single.
  unfold run_launch. cbn [policy_end launch_op]. rewrite Hrows.
  apply for_each_ext. intros i m' _. reflexivity.
Qed.

Lemma size_wrap_small (s : NativeSize) (n : Z) :
  0 <= n < 2 ^ size_bits s -> size_wrap s n = n.
Proof. intros Hn. unfold size_wrap. apply Z.mod_small. exact Hn. Qed.

Lemma Axpby2_index_type_int (X : View2) :
  wf_view2 X ->
  (Axpby2_index_type X = IndexInt <->
   v2_dim0 X < INT_MAX /\ v2_dim0 X * v2_dim1 X < INT_MAX).
Proof.
  intros (H0 & H1 & Hspan). unfold Axpby2_index_type.
  rewrite size_wrap_small by (split; [apply Z.mul_nonneg_nonneg|]; assumption).
  destruct (Z.ltb_spec (v2_dim0 X) INT_MAX);
    destruct (Z.ltb_spec (v2_dim0 X * v2_dim1 X) INT_MAX); simpl;
    split; try discriminate; try tauto; intros [? ?]; lia.
Qed.

Lemma Invoke_Left_index_irrelevant (X : View2) (R Y : View2) av bv p q m :
  wf_view2 X ->
  run (MV_Axpby_Invoke_Left (Axpby2_index_type X) R av X bv Y p q) m =
  run (MV_Axpby_Invoke_Left IndexNative R av X bv Y p q) m.
Proof.
  intros Hwf. destruct (Axpby2_index_type X) eqn:E; [|reflexivity].
  apply Axpby2_index_type_int in E; [|exact Hwf].
  destruct Hwf as (H0 & H1 & _). destruct E as [Hr Hp].
  rewrite !Invoke_Left_generic. unfold INT_MAX in *.
  apply Generic_index_irrelevant; simpl.
  - apply wrap_int_small. lia.
  - rewrite wrap_int_small by lia.
    destruct (Z.eq_dec (v2_dim0 X) 0) as [Hz | Hnz]; [left; lia|].
    right. apply wrap_int_small. nia.
Qed.

(** *** The rank-2 scalar entry point, end to end *)

Lemma dispatch_tags_tested (p q : Z) :
  In p tags -> In q tags -> p <> 2 \/ q = 2 -> dispatch_tags p q = (p, q).
Proof.
  intros Hp Hq Hpq.
  apply tags_cases in Hp as [-> | [-> | [-> | ->]]];
    apply tags_cases in Hq as [-> | [-> | [-> | ->]]];
    try reflexivity;
    destruct Hpq as [Hpq | Hpq]; solve [contradiction Hpq; reflexivity
                                       | discriminate Hpq].
Qed.

Lemma Axpby2_scalar_tags_valid (alpha beta : T) :
  In (fst (Axpby2_scalar_tags alpha beta)) tags /\
  In (snd (Axpby2_scalar_tags alpha beta)) tags.
Proof.
  unfold Axpby2_scalar_tags, tags. simpl.
  destruct (s_eq alpha ATS_zero), (s_eq alpha (s_neg ATS_one)),
    (s_eq alpha ATS_one), (s_eq beta ATS_zero), (s_eq beta (s_neg ATS_one)),
    (s_eq beta ATS_one); simpl; tauto.
Qed.

Lemma tag_spec_chain (v : T) :
  tag_spec v
    (if s_eq v ATS_zero then 0
     else if s_eq v (s_neg ATS_one) then -1
     else if s_eq v ATS_one then 1
     else 2).
Proof.
  unfold tag_spec.
  destruct (s_eq v ATS_zero), (s_eq v (s_neg ATS_one)), (s_eq v ATS_one);
    repeat split; intros; congruence.
Qed.

(** X12.  For every classification the dispatch tests (all but a general
    [alpha] with a [beta] of 0, -1 or 1), the call leaves the formula in
    every entry of R.  An operand whose coefficient is zero is not mentioned by
    [kernel_pre]: it may hold anything, or be invalid. *)
Lemma Axpby2_scalar_axpby_formula (R X Y : View2) (alpha beta : T) m0
    (xv yv : Z * Z -> T) :
  (forall u v : T, s_sub u v = s_add u (s_neg v)) ->
  wf_view2 X ->
  let p := fst (Axpby2_scalar_tags alpha beta) in
  let q := snd (Axpby2_scalar_tags alpha beta) in
  p <> 2 \/ q = 2 ->
  kernel_pre p q (CoeffScalar alpha) (CoeffScalar beta) (at2 X) (at2 Y)
    (at2 R) (v2_dim0 X) (v2_dim1 X) xv yv (fun _ => alpha) (fun _ => beta)
    m0 ->
  exists m',
    run (Axpby2_scalar_axpby R alpha X beta Y) m0 = Some m' /\
    kernel_post p q (at2 R) (v2_dim0 X) (v2_dim1 X) xv yv
      (fun _ => alpha) (fun _ => beta) m'.
Proof.
  intros Hsub Hwf p q Hpq Hpre.
  destruct (Axpby2_scalar_tags_valid alpha beta) as [Hp Hq].
  fold p in Hp. fold q in Hq.
  assert (Hrun : run (Axpby2_scalar_axpby R alpha X beta Y) m0 =
                 run (MV_Axpby_Generic IndexNative R (CoeffScalar alpha) X
                        (CoeffScalar beta) Y p q) m0).
  { rewrite <- Invoke_Left_generic.
    rewrite <- (Invoke_Left_index_irrelevant X) by exact Hwf.
    unfold Axpby2_scalar_axpby, p, q.
    destruct (Axpby2_scalar_tags alpha beta) as [p' q'].
    destruct (Axpby2_index_type X); reflexivity. }
  rewrite Hrun, MV_Axpby_Generic_launch, run_single.
  rewrite dispatch_tags_tested by assumption. simpl fst. simpl snd.
  rewrite MV_kernel_cells by assumption. simpl to_index.
  apply grid_formula; assumption.
Qed.

(** ** The claims *)

(** C1.  For every pair of coefficient codes in {0, -1, 1, 2}, a kernel of
    each Axpby functor (the rank-2 functor, its column-unrolled variant and
    the rank-1 functor, with coefficients given as views or as scalars)
    leaves in every output entry [R(i,k)], [i] below the row count and [k]
    below the column count, the sum of the contributions of X and of Y: no
    contribution for code 0, the negated entry for code -1, the entry for
    code 1, and coefficient times entry for code 2, the coefficient being
    the scalar or the entry [a(k)] ([a(0)] for rank 1).  For the pair (0, 0)
    every written entry is [ATS::zero ()].  The element type is assumed to
    satisfy [u - v = u + (-v)]. *)
Theorem axpby_functors_formula sx sy st a b m0
    (xv yv : Z * Z -> T) (ca cb : Z -> T) :
  (forall u v : T, s_sub u v = s_add u (s_neg v)) ->
  In sx tags -> In sy tags ->
  (forall n (r x y : View2),
     kernel_pre sx sy a b (at2 x) (at2 y) (at2 r) n
       (to_index st (v2_dim1 x)) xv yv ca cb m0 ->
     exists m',
       run_launch (parallel_for n (MV_Axpby_Functor sx sy st r x y a b)) m0
       = Some m' /\
       kernel_post sx sy (at2 r) n (to_index st (v2_dim1 x)) xv yv ca cb m') /\
  (forall n U (r x y : View2),
     kernel_pre sx sy a b (at2 x) (at2 y) (at2 r) n U xv yv ca cb m0 ->
     exists m',
       run_launch
         (parallel_for n (MV_Axpby_Unroll_Functor sx sy U st r x y a b)) m0
       = Some m' /\
       kernel_post sx sy (at2 r) n U xv yv ca cb m') /\
  (forall n (r x y : View1),
     kernel_pre sx sy a b (at1 x) (at1 y) (at1 r) n 1 xv yv ca cb m0 ->
     exists m',
       run_launch (parallel_for n (V_Axpby_Functor sx sy st r x y a b)) m0
       = Some m' /\
       kernel_post sx sy (at1 r) n 1 xv yv ca cb m') /\
  (sx = 0 -> sy = 0 ->
   forall (pr : Z * Z -> Z) rows cols m',
     kernel_post sx sy pr rows cols xv yv ca cb m' ->
     forall c, in_grid rows cols c -> m' !! pr c = Some ATS_zero).
Proof.
  intros Hsub Hsx Hsy. repeat split.
  - intros n r x y Hpre. rewrite MV_kernel_cells by assumption.
    apply grid_formula; assumption.
  - intros n U r x y Hpre. rewrite Unroll_kernel_cells by assumption.
    apply grid_formula; assumption.
  - intros n r x y Hpre. rewrite V_kernel_cells by assumption.
    apply grid_formula; assumption.
  - intros -> -> pr rows cols m' Hpost c Hc. apply (Hpost c Hc).
Qed.

(** C2.  The dispatch functions test twelve pairs, [a] in {0, -1, 1} with
    [b] in {0, -1, 1, 2}, and fall to the default for every other pair: the
    pairs (2, 0), (2, -1) and (2, 1) launch the functor instantiated at
    (2, 2), in each of [MV_Axpby_Generic], [V_Axpby_Generic] and
    [MV_Axpby_Unrolled]. *)
Theorem dispatch_general_first_code_takes_default st U (r x y : View2)
    (r1 x1 y1 : View1) av bv :
  let mv := [parallel_for (to_index st (v2_dim0 x))
               (MV_Axpby_Functor 2 2 st r x y av bv)] in
  let v := [parallel_for (to_index st (v1_dim0 x1))
              (V_Axpby_Functor 2 2 st r1 x1 y1 av bv)] in
  let un := [parallel_for (to_index st (v2_dim0 x))
               (MV_Axpby_Unroll_Functor 2 2 U st r x y av bv)] in
  (MV_Axpby_Generic st r av x bv y 2 0 = mv /\
   MV_Axpby_Generic st r av x bv y 2 (-1) = mv /\
   MV_Axpby_Generic st r av x bv y 2 1 = mv) /\
  (V_Axpby_Generic st r1 av x1 bv y1 2 0 = v /\
   V_Axpby_Generic st r1 av x1 bv y1 2 (-1) = v /\
   V_Axpby_Generic st r1 av x1 bv y1 2 1 = v) /\
  (MV_Axpby_Unrolled U st r av x bv y 2 0 = un /\
   MV_Axpby_Unrolled U st r av x bv y 2 (-1) = un /\
   MV_Axpby_Unrolled U st r av x bv y 2 1 = un).
Proof. repeat split; reflexivity. Qed.

(** X7.  For the twelve pairs the dispatch functions test and for (2, 2),
    each of them performs exactly one launch, over the rows of X, of the
    functor that carries the pair as its template arguments. *)
Lemma dispatch_single_launch st U (r x y : View2) (r1 x1 y1 : View1) av bv
    (p q : Z) :
  In p tags -> In q tags -> p <> 2 \/ q = 2 ->
  (exists op, MV_Axpby_Generic st r av x bv y p q
              = [parallel_for (to_index st (v2_dim0 x)) op] /\
              functor_tags op = (p, q)) /\
  (exists op, V_Axpby_Generic st r1 av x1 bv y1 p q
              = [parallel_for (to_index st (v1_dim0 x1)) op] /\
              functor_tags op = (p, q)) /\
  (exists op, MV_Axpby_Unrolled U st r av x bv y p q
              = [parallel_for (to_index st (v2_dim0 x)) op] /\
              functor_tags op = (p, q)).
Proof.
  intros Hp Hq Hpq.
  apply tags_cases in Hp as [-> | [-> | [-> | ->]]];
    apply tags_cases in Hq as [-> | [-> | [-> | ->]]];
    try (destruct Hpq as [Hpq | Hpq]; [contradiction Hpq; reflexivity
                                      | discriminate Hpq]);
    repeat split; eexists; split; reflexivity.
Qed.

(** C5.  Both scalar entry points classify a coefficient by exact
    comparisons, in this order: code 0 if it equals [ATS::zero ()], code -1
    if it equals [-ATS::one ()], code 1 if it equals [ATS::one ()], code 2
    otherwise; the codes are what the entry points pass on to the
    dispatch. *)
Theorem scalar_classification (alpha beta : T) :
  tag_spec alpha (fst (Axpby2_scalar_tags alpha beta)) /\
  tag_spec beta (snd (Axpby2_scalar_tags alpha beta)) /\
  Axpby1_scalar_tags alpha beta = Axpby2_scalar_tags alpha beta /\
  (forall R X Y : View2,
     Axpby2_scalar_axpby R alpha X beta Y =
     MV_Axpby_Invoke_Left (Axpby2_index_type X) R (CoeffScalar alpha) X
       (CoeffScalar beta) Y
       (fst (Axpby2_scalar_tags alpha beta))
       (snd (Axpby2_scalar_tags alpha beta))) /\
  (forall R X Y : View1,
     Axpby1_scalar_axpby R alpha X beta Y =
     V_Axpby_Generic (Axpby1_index_type X) R (CoeffScalar alpha) X
       (CoeffScalar beta) Y
       (fst (Axpby1_scalar_tags alpha beta))
       (snd (Axpby1_scalar_tags alpha beta))).
Proof.
  split; [apply tag_spec_chain|]. split; [apply tag_spec_chain|].
  split; [reflexivity|]. split.
  - intros R X Y. unfold Axpby2_scalar_axpby.
    destruct (Axpby2_scalar_tags alpha beta) as [p q].
    destruct (Axpby2_index_type X); reflexivity.
  - intros R X Y. unfold Axpby1_scalar_axpby.
    destruct (Axpby1_scalar_tags alpha beta) as [p q].
    destruct (Axpby1_index_type X); reflexivity.
Qed.

(** X15.  When a value compares equal to at most one of the three
    constants, as for every numeric element type, the order of the
    comparisons does not matter: each code is characterised by its own
    comparison. *)
Lemma scalar_classification_exclusive (alpha beta : T) :
  (forall v, s_eq v ATS_zero = true ->
     s_eq v (s_neg ATS_one) = false /\ s_eq v ATS_one = false) ->
  (forall v, s_eq v (s_neg ATS_one) = true -> s_eq v ATS_one = false) ->
  let a := fst (Axpby2_scalar_tags alpha beta) in
  (a = 0 <-> s_eq alpha ATS_zero = true) /\
  (a = -1 <-> s_eq alpha (s_neg ATS_one) = true) /\
  (a = 1 <-> s_eq alpha ATS_one = true) /\
  (a = 2 <-> s_eq alpha ATS_zero = false /\
             s_eq alpha (s_neg ATS_one) = false /\
             s_eq alpha ATS_one = false).
Proof.
  intros H0 H1. unfold Axpby2_scalar_tags. simpl.
  specialize (H0 alpha). specialize (H1 alpha).
  destruct (s_eq alpha ATS_zero), (s_eq alpha (s_neg ATS_one)),
    (s_eq alpha ATS_one); repeat split; intros;
    try discriminate; try reflexivity; try tauto;
    try (destruct H0 as [? ?]; [reflexivity | discriminate]);
    try (assert (true = false) by (apply H1; reflexivity); discriminate);
    intuition discriminate.
Qed.

(** C6.  A coefficient given as a 1-D view gets code 0 exactly when its
    length is zero and code 2 exactly when it is not, whatever its entries
    hold; the codes -1 and 1 are never assigned; the codes are what the
    entry point passes on. *)
Theorem view_classification (av bv : View1) :
  let a := fst (Axpby2_view_tags av bv) in
  let b := snd (Axpby2_view_tags av bv) in
  (a = 0 <-> v1_dim0 av = 0) /\ (a = 2 <-> v1_dim0 av <> 0) /\
  a <> -1 /\ a <> 1 /\
  (b = 0 <-> v1_dim0 bv = 0) /\ (b = 2 <-> v1_dim0 bv <> 0) /\
  b <> -1 /\ b <> 1 /\
  (forall R X Y : View2,
     Axpby2_view_axpby (T := T) R av X bv Y =
     MV_Axpby_Invoke_Left (Axpby2_index_type X) R (CoeffView av) X
       (CoeffView bv) Y a b).
Proof.
  assert (Hentry : forall R X Y : View2,
            Axpby2_view_axpby (T := T) R av X bv Y =
            MV_Axpby_Invoke_Left (Axpby2_index_type X) R (CoeffView av) X
              (CoeffView bv) Y (fst (Axpby2_view_tags av bv))
              (snd (Axpby2_view_tags av bv))).
  { intros R X Y. unfold Axpby2_view_axpby.
    destruct (Axpby2_view_tags av bv) as [p q].
    destruct (Axpby2_index_type X); reflexivity. }
  unfold Axpby2_view_tags in *. simpl in *.
  destruct (Z.eqb_spec (v1_dim0 av) 0) as [Ea | Na];
    destruct (Z.eqb_spec (v1_dim0 bv) 0) as [Eb | Nb];
    repeat split; try discriminate; try tauto; try congruence.
Qed.

(** C7.  For the same arguments the rank-2 paths leave the same memory
    (and fail together): the unrolled functor at the width [n] that equals
    the column count, the rank-1 dispatch on the column-0 subviews when
    there is one column, and so the whole of [MV_Axpby_Invoke_Left], all
    agree with the generic rank-2 dispatch; and the rank-2 scalar entry
    point on single-column views performs the very launches of the rank-1
    entry point on the column-0 subviews. *)
Theorem execution_paths_agree st (r x y : View2) av bv (p q : Z) m :
  (forall n, to_index st (v2_dim1 x) = n ->
     run (MV_Axpby_Unrolled n st r av x bv y p q) m =
     run (MV_Axpby_Generic st r av x bv y p q) m) /\
  (to_index st (v2_dim1 x) = 1 ->
     run (V_Axpby_Generic st (subview r 0) av (subview x 0) bv (subview y 0)
            p q) m =
     run (MV_Axpby_Generic st r av x bv y p q) m) /\
  run (MV_Axpby_Invoke_Left st r av x bv y p q) m =
  run (MV_Axpby_Generic st r av x bv y p q) m /\
  (forall alpha beta : T,
     0 <= v2_dim0 x -> v2_dim1 x = 1 ->
     Axpby2_scalar_axpby r alpha x beta y =
     Axpby1_scalar_axpby (subview r 0) alpha (subview x 0) beta
       (subview y 0)).
Proof.
  repeat split.
  - intros n Hn. apply Unrolled_generic. exact Hn.
  - apply V_generic.
  - apply Invoke_Left_generic.
  - intros alpha beta H0 H1.
    unfold Axpby2_scalar_axpby, Axpby1_scalar_axpby.
    change (Axpby1_scalar_tags alpha beta)
      with (Axpby2_scalar_tags alpha beta).
    destruct (Axpby2_scalar_tags alpha beta) as [p' q'].
    assert (Hidx : Axpby2_index_type x = Axpby1_index_type (subview x 0)).
    { unfold Axpby2_index_type, Axpby1_index_type. simpl v1_dim0.
      rewrite H1, Z.mul_1_r.
      destruct (Z.ltb_spec (v2_dim0 x) INT_MAX) as [Hlt | Hge];
        [|reflexivity].
      rewrite size_wrap_small.
      - destruct (Z.ltb_spec (v2_dim0 x) INT_MAX); [reflexivity | lia].
      - unfold INT_MAX in Hlt. destruct (v2_size_type x); simpl; lia. }
    rewrite <- Hidx.
    destruct (Axpby2_index_type x);
      unfold MV_Axpby_Invoke_Left; rewrite H1; reflexivity.
Qed.

(** C8, as the code has it.  For a view whose extents and number of entries
    are values of [size_type], the rank-2 entry points select [int] exactly
    when the row count and the product rows*cols are both strictly below
    [INT_MAX], and the rank-1 entry point exactly when the row count is;
    otherwise they select the native [size_type].  Every functor launched
    is instantiated with the selected type, and the selection does not
    change the result: the run equals the run with the native type. *)
Theorem index_type_selection (X : View2) :
  wf_view2 X ->
  (Axpby2_index_type X = IndexInt <->
   v2_dim0 X < INT_MAX /\ v2_dim0 X * v2_dim1 X < INT_MAX) /\
  (Axpby2_index_type X = IndexNative <->
   ~ (v2_dim0 X < INT_MAX /\ v2_dim0 X * v2_dim1 X < INT_MAX)) /\
  (forall x1 : View1,
     (Axpby1_index_type x1 = IndexInt <-> v1_dim0 x1 < INT_MAX) /\
     (Axpby1_index_type x1 = IndexNative <-> ~ v1_dim0 x1 < INT_MAX)) /\
  (forall (R Y : View2) (alpha beta : T) l,
     In l (Axpby2_scalar_axpby R alpha X beta Y) ->
     functor_size_type (launch_op l) = Axpby2_index_type X) /\
  (forall (R Y : View2) (av bv : View1) (l : Launch T),
     In l (Axpby2_view_axpby R av X bv Y) ->
     functor_size_type (launch_op l) = Axpby2_index_type X) /\
  (forall (R Y : View2) (alpha beta : T) m,
     run (Axpby2_scalar_axpby R alpha X beta Y) m =
     run (MV_Axpby_Invoke_Left IndexNative R (CoeffScalar alpha) X
            (CoeffScalar beta) Y
            (fst (Axpby2_scalar_tags alpha beta))
            (snd (Axpby2_scalar_tags alpha beta))) m) /\
  (forall (R Y : View2) (av bv : View1) m,
     run (Axpby2_view_axpby R av X bv Y) m =
     run (MV_Axpby_Invoke_Left IndexNative R (CoeffView av) X
            (CoeffView bv) Y
            (fst (Axpby2_view_tags av bv))
            (snd (Axpby2_view_tags av bv))) m) /\
  (forall (r1 x1 y1 : View1) (alpha beta : T) m,
     0 <= v1_dim0 x1 ->
     run (Axpby1_scalar_axpby r1 alpha x1 beta y1) m =
     run (V_Axpby_Generic IndexNative r1 (CoeffScalar alpha) x1
            (CoeffScalar beta) y1
            (fst (Axpby1_scalar_tags alpha beta))
            (snd (Axpby1_scalar_tags alpha beta))) m).
Proof.
  intros Hwf.
  assert (Hint := Axpby2_index_type_int X Hwf).
  assert (H1 : forall x1 : View1,
             Axpby1_index_type x1 = IndexInt <-> v1_dim0 x1 < INT_MAX).
  { intros x1. unfold Axpby1_index_type.
    destruct (Z.ltb_spec (v1_dim0 x1) INT_MAX); split;
      try discriminate; try tauto; lia. }
  split; [exact Hint|]. split.
  { rewrite <- Hint. destruct (Axpby2_index_type X); split;
      try discriminate; try tauto; congruence. }
  split.
  { intros x1. split; [apply H1|]. rewrite <- H1.
    destruct (Axpby1_index_type x1); split;
      try discriminate; try tauto; congruence. }
  split.
  { intros R Y alpha beta l. unfold Axpby2_scalar_axpby.
    destruct (Axpby2_scalar_tags alpha beta) as [p q].
    destruct (Axpby2_index_type X); apply Invoke_Left_size_type. }
  split.
  { intros R Y av bv l. unfold Axpby2_view_axpby.
    destruct (Axpby2_view_tags av bv) as [p q].
    destruct (Axpby2_index_type X); apply Invoke_Left_size_type. }
  split.
  { intros R Y alpha beta m. unfold Axpby2_scalar_axpby.
    destruct (Axpby2_scalar_tags alpha beta) as [p q]. simpl fst. simpl snd.
    rewrite <- (Invoke_Left_index_irrelevant X) by exact Hwf.
    destruct (Axpby2_index_type X); reflexivity. }
  split.
  { intros R Y av bv m. unfold Axpby2_view_axpby.
    destruct (Axpby2_view_tags av bv) as [p q]. simpl fst. simpl snd.
    rewrite <- (Invoke_Left_index_irrelevant X) by exact Hwf.
    destruct (Axpby2_index_type X); reflexivity. }
  intros r1 x1 y1 alpha beta m H0. unfold Axpby1_scalar_axpby.
  destruct (Axpby1_scalar_tags alpha beta) as [p q]. simpl fst. simpl snd.
  destruct (Axpby1_index_type x1) eqn:E; [|reflexivity].
  apply H1 in E.
  apply V_Generic_index_irrelevant. simpl.
  apply wrap_int_small. unfold INT_MAX in E. lia.
Qed.

(** C10.  When no output entry is an entry of X, of Y or of a coefficient
    view, a kernel of any Axpby functor, for any pair of codes in
    {0, -1, 1, 2}, started from two memories that differ only in the
    initial contents of the output entries ends in the same memory (or
    fails in both): the output is assigned and never read. *)
Theorem output_independent_of_initial_R sx sy st a b m1 m2 :
  In sx tags -> In sy tags ->
  (forall n (r x y : View2),
     no_alias a b (at2 x) (at2 y) (at2 r) n (to_index st (v2_dim1 x)) ->
     differ_only_on (at2 r) n (to_index st (v2_dim1 x)) m1 m2 ->
     run_launch (parallel_for n (MV_Axpby_Functor sx sy st r x y a b)) m1 =
     run_launch (parallel_for n (MV_Axpby_Functor sx sy st r x y a b)) m2) /\
  (forall n U (r x y : View2),
     no_alias a b (at2 x) (at2 y) (at2 r) n U ->
     differ_only_on (at2 r) n U m1 m2 ->
     run_launch
       (parallel_for n (MV_Axpby_Unroll_Functor sx sy U st r x y a b)) m1 =
     run_launch
       (parallel_for n (MV_Axpby_Unroll_Functor sx sy U st r x y a b)) m2) /\
  (forall n (r x y : View1),
     no_alias a b (at1 x) (at1 y) (at1 r) n 1 ->
     differ_only_on (at1 r) n 1 m1 m2 ->
     run_launch (parallel_for n (V_Axpby_Functor sx sy st r x y a b)) m1 =
     run_launch (parallel_for n (V_Axpby_Functor sx sy st r x y a b)) m2).
Proof.
  intros Hsx Hsy. repeat split.
  - intros n r x y Hna Hd. rewrite !MV_kernel_cells by assumption.
    apply grid_agree; assumption.
  - intros n U r x y Hna Hd. rewrite !Unroll_kernel_cells by assumption.
    apply grid_agree; assumption.
  - intros n r x y Hna Hd. rewrite !V_kernel_cells by assumption.
    apply grid_agree; assumption.
Qed.


(** ** Further properties of the kernels *)

Lemma for_each_noop {A S : Type} (l : list A) (f : A -> S -> option S)
    (s : S) :
  (forall x s', In x l -> f x s' = Some s') -> for_each l f s = Some s.
Proof.
  induction l as [|x l IH]; intros Hf; simpl; [reflexivity|].
  rewrite Hf by (left; reflexivity).
  apply IH. intros y s' Hy. apply Hf. right. exact Hy.
Qed.

(** A successful assignment is an update of the output entry, which was
    valid. *)
Lemma cell_success sx sy a b k px py pr m m1 :
  cell sx sy a b k px py pr m = Some m1 ->
  exists v, m1 = <[pr := v]> m /\ is_Some (m !! pr).
Proof.
  unfold cell.
  destruct (read_if (sx =? 2) (coeff_at a k m)) as [ca|]; simpl;
    [|discriminate].
  destruct (read_if (negb (sx =? 0)) (load m px)) as [x|]; simpl;
    [|discriminate].
  destruct (read_if (sy =? 2) (coeff_at b k m)) as [cb|]; simpl;
    [|discriminate].
  destruct (read_if (negb (sy =? 0)) (load m py)) as [y|]; simpl;
    [|discriminate].
  unfold store. destruct (m !! pr) as [v0|] eqn:E; [|discriminate].
  intros H. injection H as <-. eexists. split; [reflexivity|].
  eexists. reflexivity.
Qed.

Lemma cells_frame sx sy a b (px py pr : Z * Z -> Z) (cs : list (Z * Z))
    m m' :
  for_each cs (cell_at sx sy a b px py pr) m = Some m' ->
  dom m' = dom m /\
  forall p, (forall c, In c cs -> p <> pr c) -> m' !! p = m !! p.
Proof.
  revert m. induction cs as [|c cs IH]; intros m; simpl.
  - intros H. injection H as <-. auto.
  - destruct (cell_at sx sy a b px py pr c m) as [m1|] eqn:E; [|discriminate].
    intros H. apply cell_success in E as (v & -> & Hsome).
    destruct (IH _ H) as [Hdom Hfar]. split.
    + rewrite Hdom. apply dom_insert_lookup_L. exact Hsome.
    + intros p Hp. rewrite Hfar by (intros c' Hc'; apply Hp; right; exact Hc').
      apply lookup_insert_ne. intros Heq. apply (Hp c); [left; reflexivity|].
      symmetry. exact Heq.
Qed.

(** *** Template codes outside {0, -1, 1, 2} *)

Lemma untested_pair sx sy (cx cy : Z) :
  ~ (In sx tags /\ In sy tags) -> In cx tags -> In cy tags ->
  (sx =? cx) && (sy =? cy) = false.
Proof.
  intros H Hx Hy. apply andb_false_iff.
  destruct (Z.eqb_spec sx cx) as [-> | _]; [|left; reflexivity].
  destruct (Z.eqb_spec sy cy) as [-> | _]; [|right; reflexivity].
  contradiction H. split; assumption.
Qed.

Ltac untested_pairs H :=
  repeat match goal with
    | |- context [(?sx =? ?cx) && (?sy =? ?cy)] =>
        rewrite (untested_pair sx sy cx cy H)
          by (unfold tags; simpl; lia)
    end.

Lemma MV_call_untested sx sy n (r x y : View2) a b i m :
  ~ (In sx tags /\ In sy tags) ->
  MV_Axpby_Functor_call sx sy n r x y a b i m = Some m.
Proof.
  intros H. unfold MV_Axpby_Functor_call. untested_pairs H. reflexivity.
Qed.

Lemma Unroll_call_untested sx sy n (r x y : View2) a b i m :
  ~ (In sx tags /\ In sy tags) ->
  MV_Axpby_Unroll_Functor_call sx sy n r x y a b i m = Some m.
Proof.
  intros H. unfold MV_Axpby_Unroll_Functor_call. untested_pairs H.
  reflexivity.
Qed.

Lemma V_call_untested sx sy (r x y : View1) a b i m :
  ~ (In sx tags /\ In sy tags) ->
  V_Axpby_Functor_call sx sy r x y a b i m = Some m.
Proof.
  intros H. unfold V_Axpby_Functor_call. untested_pairs H. reflexivity.
Qed.

Lemma tags_dec (sx sy : Z) :
  {In sx tags /\ In sy tags} + {~ (In sx tags /\ In sy tags)}.
Proof.
  destruct (in_dec Z.eq_dec sx tags) as [Hx | Hx];
    destruct (in_dec Z.eq_dec sy tags) as [Hy | Hy];
    solve [left; split; assumption | right; tauto].
Qed.

(** A kernel is a grid of assignments, or does nothing at all. *)
Lemma kernel_cells_cases (op : Functor T) n m :
  (functor_tested op /\
   run_launch (parallel_for n op) m =
   for_each (list_prod (range n) (range (functor_cols op)))
     (functor_cell op) m) \/
  (~ functor_tested op /\ run_launch (parallel_for n op) m = Some m).
Proof.
  unfold functor_tested, functor_cell.
  destruct op as [sx sy st r x y a b | sx sy U st r x y a b
                 | sx sy st r x y a b]; simpl;
    (destruct (tags_dec sx sy) as [[Hx Hy] | Hno];
     [left; split; [split; assumption|] | right; split; [exact Hno|]]).
  - apply MV_kernel_cells; assumption.
  - unfold run_launch. apply for_each_noop. intros i m' _.
    apply MV_call_untested. exact Hno.
  - apply Unroll_kernel_cells; assumption.
  - unfold run_launch. apply for_each_noop. intros i m' _.
    apply Unroll_call_untested. exact Hno.
  - apply V_kernel_cells; assumption.
  - unfold run_launch. apply for_each_noop. intros i m' _.
    apply V_call_untested. exact Hno.
Qed.

Lemma kernel_cells (op : Functor T) n m :
  functor_tested op ->
  run_launch (parallel_for n op) m =
  for_each (list_prod (range n) (range (functor_cols op)))
    (functor_cell op) m.
Proof.
  intros Ht. destruct (kernel_cells_cases op n m) as [[_ H] | [Hno _]];
    [exact H | contradiction].
Qed.

(** X6.  A functor whose template codes are not among the four has no
    branch that fires: its kernel reads nothing and writes nothing. *)
Theorem untested_codes_write_nothing (op : Functor T) n m :
  ~ functor_tested op -> run_launch (parallel_for n op) m = Some m.
Proof.
  intros Hno. destruct (kernel_cells_cases op n m) as [[Ht _] | [_ H]];
    [contradiction | exact H].
Qed.

(** X1.  A kernel that succeeds leaves the set of valid addresses as it was
    and changes no address other than the output entries [R(i,k)], [i] below
    the row count and [k] below the column count of the functor, whatever
    the template codes and however the views overlap. *)
Theorem kernel_footprint (op : Functor T) n m m' :
  run_launch (parallel_for n op) m = Some m' ->
  dom m' = dom m /\
  forall p,
    (forall c, in_grid n (functor_cols op) c -> p <> functor_out op c) ->
    m' !! p = m !! p.
Proof.
  destruct (kernel_cells_cases op n m) as [[_ ->] | [_ ->]].
  - intros H. apply cells_frame in H as [Hdom Hfar]. split; [exact Hdom|].
    intros p Hp. apply Hfar. intros c Hc. apply Hp, grid_elem, Hc.
  - intros H. injection H as <-. auto.
Qed.

(** *** When a kernel succeeds *)

Lemma is_Some_bind_const {A B : Type} (o : option A) (f : A -> option B)
    (P : Prop) :
  (forall v, is_Some (f v) <-> P) ->
  (is_Some (o ≫= f) <-> is_Some o /\ P).
Proof.
  intros Hf. destruct o as [v|]; simpl.
  - rewrite Hf. split; [intros HP; split; [eexists; reflexivity | exact HP]
                       | intros [_ HP]; exact HP].
  - split; [intros [? ?]; discriminate | intros [[? ?] _]; discriminate].
Qed.

Lemma read_if_is_Some (c : bool) (o : option T) :
  is_Some (read_if c o) <-> (c = true -> is_Some o).
Proof.
  destruct c; simpl.
  - split; [intros H _; exact H | intros H; apply H; reflexivity].
  - split; [intros _ H; discriminate H | intros _; eexists; reflexivity].
Qed.

Lemma coeff_at_is_Some a k m : is_Some (coeff_at a k m) <-> coeff_mapped a k m.
Proof.
  destruct a as [c | v]; simpl; [|reflexivity].
  split; [intros _; exact I | intros _; eexists; reflexivity].
Qed.

Lemma store_is_Some m p (v : T) : is_Some (store m p v) <-> is_Some (m !! p).
Proof.
  unfold store. destruct (m !! p) as [v0|].
  - split; intros _; eexists; reflexivity.
  - split; intros [? ?]; discriminate.
Qed.

Lemma cell_at_is_Some sx sy a b (px py pr : Z * Z -> Z) c m :
  is_Some (cell_at sx sy a b px py pr c m) <->
  cell_ready sx sy a b px py pr m c.
Proof.
  unfold cell_at, cell, cell_ready.
  rewrite (is_Some_bind_const _ _
             ((sx <> 0 -> is_Some (m !! px c)) /\
              (sy = 2 -> coeff_mapped b (snd c) m) /\
              (sy <> 0 -> is_Some (m !! py c)) /\
              is_Some (m !! pr c))).
  - rewrite read_if_is_Some, coeff_at_is_Some, Z.eqb_eq. tauto.
  - intros ca.
    rewrite (is_Some_bind_const _ _
               ((sy = 2 -> coeff_mapped b (snd c) m) /\
                (sy <> 0 -> is_Some (m !! py c)) /\
                is_Some (m !! pr c))).
    + rewrite read_if_is_Some, negb_true_iff, Z.eqb_neq. unfold load. tauto.
    + intros x.
      rewrite (is_Some_bind_const _ _
                 ((sy <> 0 -> is_Some (m !! py c)) /\ is_Some (m !! pr c))).
      * rewrite read_if_is_Some, coeff_at_is_Some, Z.eqb_eq. tauto.
      * intros cb.
        rewrite (is_Some_bind_const _ _ (is_Some (m !! pr c))).
        -- rewrite read_if_is_Some, negb_true_iff, Z.eqb_neq. unfold load.
           tauto.
        -- intros y. apply store_is_Some.
Qed.

Lemma cell_ready_insert sx sy a b (px py pr : Z * Z -> Z) m p (v : T) c :
  is_Some (m !! p) ->
  (cell_ready sx sy a b px py pr (<[p := v]> m) c <->
   cell_ready sx sy a b px py pr m c).
Proof.
  intros Hp.
  assert (Hdom : forall q, is_Some (<[p := v]> m !! q) <-> is_Some (m !! q)).
  { intros q. rewrite lookup_insert. case_decide as E; [|reflexivity].
    subst q. split; [intros _; exact Hp | intros _; eexists; reflexivity]. }
  unfold cell_ready, coeff_mapped.
  rewrite !Hdom. destruct a, b; rewrite ?Hdom; reflexivity.
Qed.

Lemma cells_succeed_iff sx sy a b (px py pr : Z * Z -> Z)
    (cs : list (Z * Z)) m :
  is_Some (for_each cs (cell_at sx sy a b px py pr) m) <->
  forall c, In c cs -> cell_ready sx sy a b px py pr m c.
Proof.
  revert m. induction cs as [|c cs IH]; intros m; simpl.
  - split; [intros _ c [] | intros _; eexists; reflexivity].
  - pose proof (cell_at_is_Some sx sy a b px py pr c m) as Hc.
    destruct (cell_at sx sy a b px py pr c m) as [m1|] eqn:E.
    + apply cell_success in E as (v & -> & Hsome).
      rewrite IH. split.
      * intros H c' [<- | Hc']; [apply Hc; eexists; reflexivity|].
        apply (cell_ready_insert sx sy a b px py pr m (pr c) v c' Hsome).
        apply H, Hc'.
      * intros H c' Hc'.
        apply (cell_ready_insert sx sy a b px py pr m (pr c) v c' Hsome).
        apply H. right. exact Hc'.
    + split; [intros [? ?]; discriminate|].
      intros H. apply Hc, H. left. reflexivity.
Qed.

(** X2.  A kernel of a functor with codes among the four succeeds exactly
    when
    every address it dereferences is valid in the initial memory: every
    output entry, every entry of an operand whose code is not 0 and every
    entry of a coefficient view whose code is 2.  Overlap of the views plays
    no part. *)
Theorem kernel_succeeds_iff (op : Functor T) n m :
  functor_tested op ->
  (is_Some (run_launch (parallel_for n op) m) <->
   forall c, in_grid n (functor_cols op) c ->
     cell_ready (fst (functor_tags op)) (snd (functor_tags op))
       (functor_a op) (functor_b op)
       (functor_in_x op) (functor_in_y op) (functor_out op) m c).
Proof.
  intros Ht. rewrite kernel_cells by exact Ht.
  unfold functor_cell. rewrite cells_succeed_iff.
  split; intros H c Hc; apply H, grid_elem, Hc.
Qed.

(** X3.  When no output entry is an operand or coefficient entry, running
    a kernel again on its own result changes nothing. *)
Theorem kernel_idempotent (op : Functor T) n m m' :
  no_alias (functor_a op) (functor_b op) (functor_in_x op) (functor_in_y op)
    (functor_out op) n (functor_cols op) ->
  run_launch (parallel_for n op) m = Some m' ->
  run_launch (parallel_for n op) m' = Some m'.
Proof.
  intros Hna Hrun.
  destruct (kernel_cells_cases op n m') as [[Ht ->] | [_ ->]];
    [|reflexivity].
  rewrite kernel_cells in Hrun by exact Ht. unfold functor_cell in *.
  destruct (cells_frame _ _ _ _ _ _ _ _ _ _ Hrun) as [Hdom Hfar].
  rewrite <- Hrun. symmetry.
  apply grid_agree; [exact Hna|]. split.
  - intros p Hp. symmetry. apply Hfar. intros c Hc. apply Hp, grid_elem, Hc.
  - intros c _. rewrite <- !elem_of_dom, Hdom. reflexivity.
Qed.

(** *** The order of the rows *)

Lemma rows_cells (op : Functor T) (rows : list Z) m :
  functor_tested op ->
  for_each rows (call op) m =
  for_each (list_prod rows (range (functor_cols op))) (functor_cell op) m.
Proof.
  unfold functor_tested, functor_cell.
  destruct op as [sx sy st r x y a b | sx sy U st r x y a b
                 | sx sy st r x y a b]; simpl; intros [Hx Hy].
  - rewrite (for_each_ext _ _ (fun i => for_each
               (range (to_index st (v2_dim1 x)))
               (fun k => cell sx sy a b k (addr2 x i k) (addr2 y i k)
                           (addr2 r i k))))
      by (intros; apply MV_call_cells; assumption).
    rewrite for_each_nested. reflexivity.
  - rewrite (for_each_ext _ _ (fun i => for_each (range U)
               (fun k => cell sx sy a b k (addr2 x i k) (addr2 y i k)
                           (addr2 r i k))))
      by (intros; apply Unroll_call_cells; assumption).
    rewrite for_each_nested. reflexivity.
  - rewrite (for_each_ext _ _ (fun i => for_each (range 1)
               (fun k => cell sx sy a b k (addr1 x i) (addr1 y i)
                           (addr1 r i)))).
    + rewrite for_each_nested. reflexivity.
    + intros i m' _. change (range 1) with [0]. rewrite for_each_singleton.
      apply V_call_cell; assumption.
Qed.

(** X4.  Under the conditions of [kernel_pre] (in-place updates included)
    the rows of a kernel of any of the functors may be visited in any
    order: every permutation of the rows ends in the memory of the run in
    increasing order. *)
Theorem kernel_rows_in_any_order (op : Functor T) n m0
    (xv yv : Z * Z -> T) (ca cb : Z -> T) (rows : list Z) :
  functor_tested op ->
  kernel_pre (fst (functor_tags op)) (snd (functor_tags op))
    (functor_a op) (functor_b op) (functor_in_x op) (functor_in_y op)
    (functor_out op) n (functor_cols op) xv yv ca cb m0 ->
  Permutation rows (range n) ->
  for_each rows (call op) m0 = run_launch (parallel_for n op) m0.
Proof.
  intros Ht Hpre Hperm. destruct (Ht) as [Hsx Hsy].
  rewrite kernel_cells, rows_cells by exact Ht. unfold functor_cell.
  destruct (cells_final _ _ _ _ _ _ _ n (functor_cols op) xv yv ca cb m0
              (list_prod rows (range (functor_cols op))) Hsx Hsy Hpre)
    as (m1 & -> & Hv1 & Hf1).
  { apply list_prod_NoDup; [|apply range_NoDup].
    apply NoDup_ListNoDup. rewrite Hperm. apply NoDup_ListNoDup, range_NoDup. }
  { intros [i k]. rewrite in_prod_iff, range_elem. unfold in_grid. simpl.
    rewrite <- (range_elem n i), <- !list_elem_of_In, Hperm. reflexivity. }
  destruct (cells_final _ _ _ _ _ _ _ n (functor_cols op) xv yv ca cb m0
              (list_prod (range n) (range (functor_cols op))) Hsx Hsy Hpre)
    as (m2 & -> & Hv2 & Hf2).
  { apply grid_NoDup. }
  { intros c. apply grid_elem. }
  f_equal. apply map_eq. intros p.
  destruct (in_dec Z.eq_dec p
              (map (functor_out op)
                 (list_prod (range n) (range (functor_cols op)))))
    as [Hin | Hout].
  - apply in_map_iff in Hin as (c & <- & Hc). apply grid_elem in Hc.
    rewrite Hv1, Hv2 by exact Hc. reflexivity.
  - rewrite Hf1, Hf2; [reflexivity | |];
      intros c Hc ->; apply Hout, in_map, grid_elem, Hc.
Qed.

(** *** An operand whose code is 0 *)

Lemma cell_zero_y sx a b b' k px py py' pr m :
  cell sx 0 a b k px py pr m = cell sx 0 a b' k px py' pr m.
Proof. unfold cell, read_if, rhs. simpl. reflexivity. Qed.

Lemma cell_zero_x sy a a' b k px px' py pr m :
  cell 0 sy a b k px py pr m = cell 0 sy a' b k px' py pr m.
Proof. unfold cell, read_if, rhs. simpl. reflexivity. Qed.

(** X5.  With code 0 for Y, a kernel does not depend on the Y view nor on
    the coefficient [b]: any other view and coefficient in their place give
    the same run.  The same holds for X and [a] under code 0 for X, except that
    the rank-2 functor takes its column count from X, so the other view must
    have as many columns. *)
Theorem zero_code_operand_unused s st n U (r x y x' y' : View2)
    (r1 x1 y1 x1' y1' : View1) a b a' b' m :
  In s tags ->
  (run_launch (parallel_for n (MV_Axpby_Functor s 0 st r x y a b)) m =
   run_launch (parallel_for n (MV_Axpby_Functor s 0 st r x y' a b')) m /\
   run_launch (parallel_for n (MV_Axpby_Unroll_Functor s 0 U st r x y a b)) m =
   run_launch (parallel_for n (MV_Axpby_Unroll_Functor s 0 U st r x y' a b'))
     m /\
   run_launch (parallel_for n (V_Axpby_Functor s 0 st r1 x1 y1 a b)) m =
   run_launch (parallel_for n (V_Axpby_Functor s 0 st r1 x1 y1' a b')) m) /\
  (to_index st (v2_dim1 x) = to_index st (v2_dim1 x') ->
   run_launch (parallel_for n (MV_Axpby_Functor 0 s st r x y a b)) m =
   run_launch (parallel_for n (MV_Axpby_Functor 0 s st r x' y a' b)) m) /\
  run_launch (parallel_for n (MV_Axpby_Unroll_Functor 0 s U st r x y a b)) m =
  run_launch (parallel_for n (MV_Axpby_Unroll_Functor 0 s U st r x' y a' b))
    m /\
  run_launch (parallel_for n (V_Axpby_Functor 0 s st r1 x1 y1 a b)) m =
  run_launch (parallel_for n (V_Axpby_Functor 0 s st r1 x1' y1 a' b)) m.
Proof.
  intros Hs.
  assert (H0 : In 0 tags) by (left; reflexivity).
  split; [split; [|split] | split; [|split]].
  - rewrite !MV_kernel_cells by assumption.
    apply for_each_ext. intros c m' _. apply cell_zero_y.
  - rewrite !Unroll_kernel_cells by assumption.
    apply for_each_ext. intros c m' _. apply cell_zero_y.
  - rewrite !V_kernel_cells by assumption.
    apply for_each_ext. intros c m' _. apply cell_zero_y.
  - intros Hc. rewrite !MV_kernel_cells by assumption. rewrite <- Hc.
    apply for_each_ext. intros c m' _. apply cell_zero_x.
  - rewrite !Unroll_kernel_cells by assumption.
    apply for_each_ext. intros c m' _. apply cell_zero_x.
  - rewrite !V_kernel_cells by assumption.
    apply for_each_ext. intros c m' _. apply cell_zero_x.
Qed.

(** ** Further properties of the dispatch and of the entry points *)


Lemma Invoke_Left_single st (r x y : View2) av bv (p q : Z) :
  exists op,
    MV_Axpby_Invoke_Left st r av x bv y p q =
    [parallel_for (to_index st (v2_dim0 x)) op] /\
    functor_tested op /\ functor_size_type op = st.
Proof.
  destruct (dispatch_tags_valid p q) as [Hp Hq].
  unfold MV_Axpby_Invoke_Left.
  repeat (match goal with
          | |- context [to_index st (v2_dim1 x) =? ?n] =>
              destruct (to_index st (v2_dim1 x) =? n)
          end);
    rewrite ?V_Axpby_Generic_launch, ?MV_Axpby_Unrolled_launch,
      ?MV_Axpby_Generic_launch;
    eexists; (split; [reflexivity|]); (split; [split; assumption|]);
    reflexivity.
Qed.

(** X10.  Every entry point launches exactly one kernel, over the rows of
    X, of a functor whose template codes are among the four and whose index
    type is the one the entry point selected. *)
Theorem entry_points_launch_once :
  (forall (R X Y : View2) (alpha beta : T),
     exists op,
       Axpby2_scalar_axpby R alpha X beta Y =
       [parallel_for (to_index (Axpby2_index_type X) (v2_dim0 X)) op] /\
       functor_tested op /\ functor_size_type op = Axpby2_index_type X) /\
  (forall (R X Y : View2) (av bv : View1),
     exists op : Functor T,
       Axpby2_view_axpby R av X bv Y =
       [parallel_for (to_index (Axpby2_index_type X) (v2_dim0 X)) op] /\
       functor_tested op /\ functor_size_type op = Axpby2_index_type X) /\
  (forall (R X Y : View1) (alpha beta : T),
     exists op,
       Axpby1_scalar_axpby R alpha X beta Y =
       [parallel_for (to_index (Axpby1_index_type X) (v1_dim0 X)) op] /\
       functor_tested op /\ functor_size_type op = Axpby1_index_type X).
Proof.
  split; [|split].
  - intros R X Y alpha beta. unfold Axpby2_scalar_axpby.
    destruct (Axpby2_scalar_tags alpha beta) as [p q].
    destruct (Axpby2_index_type X); apply Invoke_Left_single.
  - intros R X Y av bv. unfold Axpby2_view_axpby.
    destruct (Axpby2_view_tags av bv) as [p q].
    destruct (Axpby2_index_type X); apply Invoke_Left_single.
  - intros R X Y alpha beta. unfold Axpby1_scalar_axpby.
    destruct (Axpby1_scalar_tags alpha beta) as [p q].
    destruct (dispatch_tags_valid p q) as [Hp Hq].
    destruct (Axpby1_index_type X); rewrite V_Axpby_Generic_launch;
      eexists; (split; [reflexivity|]); (split; [split; assumption|]);
      reflexivity.
Qed.

(** *** Empty problems *)

Lemma to_index_0 st : to_index st 0 = 0.
Proof. destruct st; reflexivity. Qed.

Lemma Generic_empty st (r x y : View2) av bv (p q : Z) m :
  v2_dim0 x = 0 \/ v2_dim1 x = 0 ->
  run (MV_Axpby_Generic st r av x bv y p q) m = Some m.
Proof.
  intros Hempty. rewrite MV_Axpby_Generic_launch, run_single.
  destruct (dispatch_tags_valid p q) as [Hp Hq].
  destruct Hempty as [E | E].
  - rewrite E, to_index_0. reflexivity.
  - unfold run_launch. apply for_each_noop. intros i m' _.
    cbn [launch_op call]. rewrite E, to_index_0.
    rewrite MV_call_cells by assumption. reflexivity.
Qed.

(** X11.  A call on views without rows or without columns succeeds and
    leaves the memory as it is, whatever the coefficients are and whether or not the
    views point to valid memory. *)
Theorem empty_problem_is_noop :
  (forall (R X Y : View2) (alpha beta : T) (av bv : View1) m,
     v2_dim0 X = 0 \/ v2_dim1 X = 0 ->
     run (Axpby2_scalar_axpby R alpha X beta Y) m = Some m /\
     run (Axpby2_view_axpby R av X bv Y) m = Some m) /\
  (forall (R X Y : View1) (alpha beta : T) m,
     v1_dim0 X = 0 ->
     run (Axpby1_scalar_axpby R alpha X beta Y) m = Some m).
Proof.
  split.
  - intros R X Y alpha beta av bv m Hempty. split.
    + unfold Axpby2_scalar_axpby.
      destruct (Axpby2_scalar_tags alpha beta) as [p q].
      destruct (Axpby2_index_type X); rewrite Invoke_Left_generic;
        apply Generic_empty; exact Hempty.
    + unfold Axpby2_view_axpby.
      destruct (Axpby2_view_tags av bv) as [p q].
      destruct (Axpby2_index_type X); rewrite Invoke_Left_generic;
        apply Generic_empty; exact Hempty.
  - intros R X Y alpha beta m Hempty. unfold Axpby1_scalar_axpby.
    destruct (Axpby1_scalar_tags alpha beta) as [p q].
    destruct (Axpby1_index_type X);
      rewrite V_Axpby_Generic_launch, run_single, Hempty; reflexivity.
Qed.

(** *** The other entry points, end to end *)

(** X13.  The rank-1 entry point: for every classification the dispatch
    tests,
    the call leaves the formula in every entry of R. *)
Theorem Axpby1_scalar_axpby_formula (R X Y : View1) (alpha beta : T) m0
    (xv yv : Z * Z -> T) :
  (forall u v : T, s_sub u v = s_add u (s_neg v)) ->
  0 <= v1_dim0 X ->
  let p := fst (Axpby1_scalar_tags alpha beta) in
  let q := snd (Axpby1_scalar_tags alpha beta) in
  p <> 2 \/ q = 2 ->
  kernel_pre p q (CoeffScalar alpha) (CoeffScalar beta) (at1 X) (at1 Y)
    (at1 R) (v1_dim0 X) 1 xv yv (fun _ => alpha) (fun _ => beta) m0 ->
  exists m',
    run (Axpby1_scalar_axpby R alpha X beta Y) m0 = Some m' /\
    kernel_post p q (at1 R) (v1_dim0 X) 1 xv yv
      (fun _ => alpha) (fun _ => beta) m'.
Proof.
  intros Hsub H0 p q Hpq Hpre.
  destruct (Axpby2_scalar_tags_valid alpha beta) as [Hp Hq].
  change (Axpby2_scalar_tags alpha beta)
    with (Axpby1_scalar_tags alpha beta) in Hp, Hq.
  fold p in Hp. fold q in Hq.
  assert (Hrun : run (Axpby1_scalar_axpby R alpha X beta Y) m0 =
                 run (V_Axpby_Generic IndexNative R (CoeffScalar alpha) X
                        (CoeffScalar beta) Y p q) m0).
  { unfold Axpby1_scalar_axpby, p, q.
    destruct (Axpby1_scalar_tags alpha beta) as [p' q']. simpl fst. simpl snd.
    destruct (Axpby1_index_type X) eqn:E; [|reflexivity].
    apply V_Generic_index_irrelevant. simpl.
    apply wrap_int_small. unfold Axpby1_index_type in E.
    destruct (Z.ltb_spec (v1_dim0 X) INT_MAX) as [Hlt | _];
      [|discriminate E].
    unfold INT_MAX in Hlt. lia. }
  rewrite Hrun, V_Axpby_Generic_launch, run_single.
  rewrite dispatch_tags_tested by assumption. simpl fst. simpl snd.
  rewrite V_kernel_cells by assumption. simpl to_index.
  apply grid_formula; assumption.
Qed.

Lemma Axpby2_view_tags_valid (av bv : View1) :
  In (fst (Axpby2_view_tags av bv)) tags /\
  In (snd (Axpby2_view_tags av bv)) tags.
Proof.
  unfold Axpby2_view_tags, tags. simpl.
  destruct (v1_dim0 av =? 0), (v1_dim0 bv =? 0); simpl; tauto.
Qed.

(** X14.  The rank-2 entry point with coefficient views: when both views
    are
    non-empty, when only the first is empty and when both are empty, the
    call leaves the formula in every entry of R, with the per-column
    coefficients [av(k)], [bv(k)]; an operand whose coefficient view is
    empty is not mentioned by [kernel_pre]. *)
Theorem Axpby2_view_axpby_formula (R X Y : View2) (av bv : View1) m0
    (xv yv : Z * Z -> T) (ca cb : Z -> T) :
  (forall u v : T, s_sub u v = s_add u (s_neg v)) ->
  wf_view2 X ->
  let p := fst (Axpby2_view_tags av bv) in
  let q := snd (Axpby2_view_tags av bv) in
  p <> 2 \/ q = 2 ->
  kernel_pre p q (CoeffView av) (CoeffView bv) (at2 X) (at2 Y) (at2 R)
    (v2_dim0 X) (v2_dim1 X) xv yv ca cb m0 ->
  exists m',
    run (Axpby2_view_axpby R av X bv Y) m0 = Some m' /\
    kernel_post p q (at2 R) (v2_dim0 X) (v2_dim1 X) xv yv ca cb m'.
Proof.
  intros Hsub Hwf p q Hpq Hpre.
  destruct (Axpby2_view_tags_valid av bv) as [Hp Hq].
  fold p in Hp. fold q in Hq.
  assert (Hrun : run (Axpby2_view_axpby R av X bv Y) m0 =
                 run (MV_Axpby_Generic IndexNative R (CoeffView av) X
                        (CoeffView bv) Y p q) m0).
  { rewrite <- Invoke_Left_generic.
    rewrite <- (Invoke_Left_index_irrelevant X) by exact Hwf.
    unfold Axpby2_view_axpby, p, q.
    destruct (Axpby2_view_tags av bv) as [p' q'].
    destruct (Axpby2_index_type X); reflexivity. }
  rewrite Hrun, MV_Axpby_Generic_launch, run_single.
  rewrite dispatch_tags_tested by assumption. simpl fst. simpl snd.
  rewrite MV_kernel_cells by assumption. simpl to_index.
  apply grid_formula; assumption.
Qed.

End AxpbyProofs.

(** ** Concrete runs *)

(** Enumerates the index pairs of a 2 x 2 grid and the columns below 2. *)
Ltac grid_cases :=
  repeat match goal with
    | H : in_grid 2 _ ?c |- _ =>
        destruct c as [? ?]; destruct H as [[? ?] [? ?]]; simpl in *
    | H : _ <= _ < _ |- _ => destruct H as [? ?]
    end;
  repeat match goal with
    | H : 0 <= ?i, H' : ?i < 2 |- _ =>
        is_var i; assert (i = 0 \/ i = 1) as [-> | ->] by lia; clear H H'
    | H : 0 <= ?i, H' : ?i < 1 |- _ =>
        is_var i; assert (i = 0) as -> by lia; clear H H'
    end.

Lemma num_sub_add_neg (u v : num) : s_sub u v = s_add u (s_neg v).
Proof. destruct u, v; reflexivity. Defined.

(** C1 on the in-place update Y(i,k) = av(k)*X(i,k) + bv(k)*Y(i,k) of
    2 x 2 views, the coefficients being the entries of two views. *)
Lemma axpby_functors_formula_witness :
  exists m',
    run_launch
      (parallel_for 2
         (MV_Axpby_Functor 2 2 IndexInt ex_Y ex_X ex_Y
            (CoeffView ex_av) (CoeffView ex_bv))) ex_mem_ab = Some m' /\
    kernel_post 2 2 (at2 ex_Y) 2 2
      (values_of ex_mem_ab (at2 ex_X)) (values_of ex_mem_ab (at2 ex_Y))
      (coeffs_of ex_mem_ab ex_av) (coeffs_of ex_mem_ab ex_bv) m'.
Proof.
  refine (proj1 (axpby_functors_formula (T := num) 2 2 IndexInt
                   (CoeffView ex_av) (CoeffView ex_bv) ex_mem_ab
                   (values_of ex_mem_ab (at2 ex_X))
                   (values_of ex_mem_ab (at2 ex_Y))
                   (coeffs_of ex_mem_ab ex_av) (coeffs_of ex_mem_ab ex_bv)
                   num_sub_add_neg _ _) 2 ex_Y ex_X ex_Y _).
  - unfold tags. simpl. tauto.
  - unfold tags. simpl. tauto.
  - change (to_index IndexInt (v2_dim1 ex_X)) with 2.
    unfold kernel_pre. repeat split; intros; grid_cases;
      try (vm_compute; first [reflexivity | congruence
                              | eexists; reflexivity]).
Defined.

(** C3, at a general [alpha].  With [alpha = 2] and [beta = 0] the codes are
    (2, 0), the functor launched is the one for (2, 2), and Y is read: R is
    [alpha*X] only while Y holds numbers, is not-a-number where Y is, and
    the run fails where Y is not mapped; the same holds for the rank-1
    entry point and for a non-empty coefficient view with an empty one.
    With [alpha = 1] or [alpha = -1], and with [alpha = 0] for X, the
    operand is not read. *)
Theorem general_alpha_zero_beta_reads_Y :
  Axpby2_scalar_tags (Fin 2) (Fin 0) = (2, 0) /\
  read_2x2 ex_R (run (Axpby2_scalar_axpby ex_R (Fin 2) ex_X (Fin 0) ex_Y)
                   ex_mem)
  = Some [Some (Fin 2); Some (Fin 6); Some (Fin 4); Some (Fin 8)] /\
  read_2x2 ex_R (run (Axpby2_scalar_axpby ex_R (Fin 2) ex_X (Fin 0) ex_Y)
                   ex_mem_nan)
  = Some [Some NaN; Some NaN; Some NaN; Some NaN] /\
  run (Axpby2_scalar_axpby ex_R (Fin 2) ex_X (Fin 0) ex_Y) ex_mem_noY
  = None /\
  (run (Axpby1_scalar_axpby ex_r1 (Fin 2) ex_x1 (Fin 0) ex_y1) ex_mem_nan
     ≫= (fun m => m !! 8)) = Some NaN /\
  run (Axpby1_scalar_axpby ex_r1 (Fin 2) ex_x1 (Fin 0) ex_y1) ex_mem_noY
  = None /\
  Axpby2_view_tags ex_av ex_empty = (2, 0) /\
  run (Axpby2_view_axpby ex_R ex_av ex_X ex_empty ex_Y) ex_mem_av = None /\
  read_2x2 ex_R (run (Axpby2_scalar_axpby ex_R (Fin 1) ex_X (Fin 0) ex_Y)
                   ex_mem_noY)
  = Some [Some (Fin 1); Some (Fin 3); Some (Fin 2); Some (Fin 4)] /\
  read_2x2 ex_R (run (Axpby2_scalar_axpby ex_R (Fin (-1)) ex_X (Fin 0) ex_Y)
                   ex_mem_noY)
  = Some [Some (Fin (-1)); Some (Fin (-3)); Some (Fin (-2)); Some (Fin (-4))]
  /\
  read_2x2 ex_R (run (Axpby2_scalar_axpby ex_R (Fin 0) ex_Y (Fin 2) ex_X)
                   ex_mem_noY)
  = Some [Some (Fin 2); Some (Fin 6); Some (Fin 4); Some (Fin 8)].
Proof. repeat split; vm_compute; reflexivity. Qed.

(** C7 on 2 x 2 views, the unrolled functor at width 2 against the generic
    one, and on a single column, the rank-2 entry point against the rank-1
    entry point. *)
Lemma execution_paths_agree_witness :
  run (MV_Axpby_Unrolled 2 IndexInt ex_R (CoeffScalar (Fin 3)) ex_X
         (CoeffScalar (Fin (-1))) ex_Y 2 (-1)) ex_mem =
  run (MV_Axpby_Generic IndexInt ex_R (CoeffScalar (Fin 3)) ex_X
         (CoeffScalar (Fin (-1))) ex_Y 2 (-1)) ex_mem /\
  Axpby2_scalar_axpby ex_col (Fin 3) ex_col (Fin 1) ex_col =
  Axpby1_scalar_axpby (subview ex_col 0) (Fin 3) (subview ex_col 0) (Fin 1)
    (subview ex_col 0).
Proof.
  split.
  - apply (proj1 (execution_paths_agree (T := num) IndexInt ex_R ex_X ex_Y
                    (CoeffScalar (Fin 3)) (CoeffScalar (Fin (-1))) 2 (-1)
                    ex_mem) 2).
    reflexivity.
  - apply (proj2 (proj2 (proj2 (execution_paths_agree (T := num) IndexInt
                    ex_col ex_col ex_col (CoeffScalar (Fin 3))
                    (CoeffScalar (Fin 1)) 2 1 ex_mem))) (Fin 3) (Fin 1)).
    + simpl. lia.
    + reflexivity.
Defined.

(** C8 as stated fails at the boundary: a row count of [INT_MAX], with one
    column, fits the range of a 32-bit signed integer, and both entry points
    select the native type. *)
Lemma index_type_boundary_counterexample :
  ~ (forall x1 : View1,
       Axpby1_index_type x1 = IndexInt <-> fits_int32 (v1_dim0 x1) = true) /\
  ~ (forall X : View2,
       wf_view2 X ->
       (Axpby2_index_type X = IndexInt <->
        fits_int32 (v2_dim0 X) && fits_int32 (v2_dim0 X * v2_dim1 X) = true)).
Proof.
  split.
  - intros H. destruct (H ex_long) as [_ H2].
    assert (E : Axpby1_index_type ex_long = IndexInt)
      by (apply H2; reflexivity).
    vm_compute in E. discriminate E.
  - intros H.
    assert (Hwf : wf_view2 ex_tall) by (repeat split; vm_compute; congruence).
    destruct (H ex_tall Hwf) as [_ H2].
    assert (E : Axpby2_index_type ex_tall = IndexInt)
      by (apply H2; reflexivity).
    vm_compute in E. discriminate E.
Qed.

(** Outside [wf_view2] the product is reduced modulo the width of
    [size_type] before it is compared: [int] is selected for 2 x 2^31
    entries, and the column count does not convert to [int]. *)
Lemma index_type_product_wraps :
  Axpby2_index_type ex_wrap = IndexInt /\
  fits_int32 (v2_dim0 ex_wrap * v2_dim1 ex_wrap) = false /\
  to_index IndexInt (v2_dim1 ex_wrap) = - 2 ^ 31.
Proof. repeat split; vm_compute; reflexivity. Qed.

(** C8 on a 2 x 2 view. *)
Lemma index_type_selection_witness :
  (Axpby2_index_type ex_X = IndexInt <->
   v2_dim0 ex_X < INT_MAX /\ v2_dim0 ex_X * v2_dim1 ex_X < INT_MAX) /\
  (forall m,
     run (Axpby2_scalar_axpby ex_R (Fin 3) ex_X (Fin 1) ex_Y) m =
     run (MV_Axpby_Invoke_Left IndexNative ex_R (CoeffScalar (Fin 3)) ex_X
            (CoeffScalar (Fin 1)) ex_Y
            (fst (Axpby2_scalar_tags (Fin 3) (Fin 1)))
            (snd (Axpby2_scalar_tags (Fin 3) (Fin 1)))) m).
Proof.
  assert (Hwf : wf_view2 ex_X) by (unfold wf_view2; simpl; lia).
  pose proof (index_type_selection (T := num) ex_X Hwf) as H.
  split.
  - exact (proj1 H).
  - intros m.
    exact (proj1 (proj2 (proj2 (proj2 (proj2 (proj2 H))))) ex_R ex_Y
             (Fin 3) (Fin 1) m).
Defined.

(** C10 as stated fails when an output entry is an entry of a coefficient
    view: R does not overlap X or Y, the two memories differ in the initial
    contents of R only, and the final R(0,0) = av(0)*X(0,0) + bv(0)*Y(0,0)
    is 3*5 + 1*7 = 22 from one and 4*5 + 1*7 = 27 from the other, in the
    functor and through the entry point. *)
Lemma output_depends_on_aliased_coefficient_counterexample :
  ~ (forall (r x y : View2) (a b : Coeff num) n (m1 m2 m1' m2' : gmap Z num),
       (forall c c', in_grid n (v2_dim1 x) c -> in_grid n (v2_dim1 x) c' ->
          at2 r c <> at2 x c' /\ at2 r c <> at2 y c') ->
       differ_only_on (at2 r) n (v2_dim1 x) m1 m2 ->
       run_launch (parallel_for n (MV_Axpby_Functor 2 2 IndexInt r x y a b)) m1
       = Some m1' ->
       run_launch (parallel_for n (MV_Axpby_Functor 2 2 IndexInt r x y a b)) m2
       = Some m2' ->
       forall c, in_grid n (v2_dim1 x) c -> m1' !! at2 r c = m2' !! at2 r c) /\
  (run (Axpby2_view_axpby ex_alias_R ex_alias_av ex_alias_X ex_alias_bv
          ex_alias_Y) ex_alias_mem1 ≫= (fun m => m !! at2 ex_alias_R (0, 0)))
  = Some (Fin 22) /\
  (run (Axpby2_view_axpby ex_alias_R ex_alias_av ex_alias_X ex_alias_bv
          ex_alias_Y) ex_alias_mem2 ≫= (fun m => m !! at2 ex_alias_R (0, 0)))
  = Some (Fin 27).
Proof.
  split; [|split; vm_compute; reflexivity].
  intros H.
  set (op := MV_Axpby_Functor (T := num) 2 2 IndexInt ex_alias_R ex_alias_X
               ex_alias_Y (CoeffView ex_alias_av) (CoeffView ex_alias_bv)).
  destruct (run_launch (parallel_for 1 op) ex_alias_mem1) as [m1'|] eqn:E1;
    [|vm_compute in E1; discriminate E1].
  destruct (run_launch (parallel_for 1 op) ex_alias_mem2) as [m2'|] eqn:E2;
    [|vm_compute in E2; discriminate E2].
  assert (V1 : (Some m1' ≫= (fun m => m !! 0)) = Some (Fin 22))
    by (rewrite <- E1; vm_compute; reflexivity).
  assert (V2 : (Some m2' ≫= (fun m => m !! 0)) = Some (Fin 27))
    by (rewrite <- E2; vm_compute; reflexivity).
  simpl in V1, V2.
  specialize (H ex_alias_R ex_alias_X ex_alias_Y (CoeffView ex_alias_av)
                (CoeffView ex_alias_bv) 1 ex_alias_mem1 ex_alias_mem2 m1' m2').
  assert (E : m1' !! at2 ex_alias_R (0, 0) = m2' !! at2 ex_alias_R (0, 0)).
  { apply H.
    - intros [i k] [i' k'] [[? ?] [? ?]] [[? ?] [? ?]]. simpl in *.
      assert (i = 0) as -> by lia. assert (k = 0) as -> by lia.
      assert (i' = 0) as -> by lia. assert (k' = 0) as -> by lia.
      vm_compute. split; congruence.
    - split.
      + intros p Hp.
        assert (Hp0 : p <> 0).
        { apply (Hp (0, 0)). unfold in_grid. simpl. lia. }
        unfold ex_alias_mem1, ex_alias_mem2. simpl.
        rewrite !lookup_insert.
        repeat (case_decide; [first [reflexivity | lia] |]). reflexivity.
      + intros [i k] [[? ?] [? ?]]. simpl in *.
        assert (i = 0) as -> by lia. assert (k = 0) as -> by lia.
        vm_compute. split; intros _; eexists; reflexivity.
    - exact E1.
    - exact E2.
    - unfold in_grid. simpl. lia. }
  change (at2 ex_alias_R (0, 0)) with 0 in E.
  rewrite V1, V2 in E. discriminate E.
Qed.

(** C10 on the same operands and the same coefficient views under two
    initial contents of R. *)
Lemma output_independent_of_initial_R_witness :
  run_launch
    (parallel_for 2
       (MV_Axpby_Functor 2 2 IndexInt ex_R ex_X ex_Y
          (CoeffView ex_av) (CoeffView ex_bv))) ex_mem_ab =
  run_launch
    (parallel_for 2
       (MV_Axpby_Functor 2 2 IndexInt ex_R ex_X ex_Y
          (CoeffView ex_av) (CoeffView ex_bv))) ex_mem_ab_R.
Proof.
  refine (proj1 (output_independent_of_initial_R (T := num) 2 2 IndexInt
                   (CoeffView ex_av) (CoeffView ex_bv) ex_mem_ab ex_mem_ab_R
                   _ _) 2 ex_R ex_X ex_Y _ _).
  - unfold tags. simpl. tauto.
  - unfold tags. simpl. tauto.
  - change (to_index IndexInt (v2_dim1 ex_X)) with 2.
    unfold no_alias. repeat split; intros; grid_cases;
      try (vm_compute; first [reflexivity | congruence]).
  - change (to_index IndexInt (v2_dim1 ex_X)) with 2.
    unfold differ_only_on. split.
    + intros p Hp.
      assert (H8 := Hp (0, 0)). assert (H9 := Hp (1, 0)).
      assert (H10 := Hp (0, 1)). assert (H11 := Hp (1, 1)).
      unfold in_grid, at2, addr2 in *. simpl in *.
      assert (p <> 8) by (apply H8; lia).
      assert (p <> 9) by (apply H9; lia).
      assert (p <> 10) by (apply H10; lia).
      assert (p <> 11) by (apply H11; lia).
      unfold ex_mem_ab, ex_mem_ab_R. simpl. rewrite !lookup_insert.
      repeat (case_decide; [first [reflexivity | lia] |]). reflexivity.
    + intros; grid_cases; vm_compute; split; intros _; eexists; reflexivity.
Defined.

(** ** The [rot] unification layer *)

(** C9 as stated fails for a build restricted to ETI instantiations: a
    tuple with neither an override nor an ETI instantiation gets no
    definition of [rot] at all. *)
Lemma rot_eti_only_counterexample :
  ~ (forall eti_only tpl eti : bool,
       Rot.uses_generic_body (Rot.select eti_only tpl eti) = true <->
       tpl = false).
Proof.
  intros H. destruct (H true false false) as [_ H2].
  specialize (H2 eq_refl). vm_compute in H2. discriminate H2.
Qed.

(** C9, as the code has it.  The selection is a function of compile-time
    flags alone.  A third-party override, where available, is selected
    whatever the ETI flag.  Without one, in a build that is not restricted
    to ETI instantiations, the generic body [Rot_Invoke] is selected: the
    one compiled into the library (region [rot[ETI]]) when an ETI
    instantiation exists, the one instantiated in the caller's translation
    unit (region [rot[noETI]]) when not; so the generic body is used exactly
    when no override is available.  In a build restricted to ETI
    instantiations, a tuple without override and without ETI instantiation
    has no definition. *)
Theorem rot_selection (tpl eti : bool) :
  Rot.select false tpl eti =
    (if tpl then Rot.Override
     else if eti then Rot.Library (Rot.Rot_Invoke "KokkosBlas::rot[ETI]")
     else Rot.Header (Rot.Rot_Invoke "KokkosBlas::rot[noETI]")) /\
  (Rot.uses_generic_body (Rot.select false tpl eti) = true <-> tpl = false) /\
  Rot.select true tpl eti =
    (if tpl then Rot.Override
     else if eti then Rot.Library (Rot.Rot_Invoke "KokkosBlas::rot[ETI]")
     else Rot.Undefined) /\
  (forall eti_only, Rot.select eti_only true eti = Rot.Override).
Proof.
  destruct tpl, eti; repeat split; try reflexivity; try discriminate;
    intros []; reflexivity.
Qed.

(** ** Further properties, on concrete inputs *)

Ltac close_cell :=
  try (vm_compute;
       first [reflexivity | congruence | eexists; reflexivity | lia]).

Lemma ex_kernel_run : run_launch (parallel_for 2 ex_kernel) ex_mem = Some ex_result.
Proof. vm_compute. reflexivity. Defined.

Lemma ex_kernel_tested : functor_tested ex_kernel.
Proof. split; unfold tags; simpl; lia. Defined.

Lemma ex_kernel_no_alias :
  no_alias (functor_a ex_kernel) (functor_b ex_kernel)
    (functor_in_x ex_kernel) (functor_in_y ex_kernel)
    (functor_out ex_kernel) 2 (functor_cols ex_kernel).
Proof.
  change (functor_cols ex_kernel) with 2.
  unfold no_alias. repeat split; intros; grid_cases; close_cell.
Defined.

Lemma untested_codes_write_nothing_witness :
  run_launch
    (parallel_for 2
       (MV_Axpby_Functor 3 0 IndexInt ex_R ex_X ex_Y
          (CoeffScalar (Fin 3)) (CoeffScalar (Fin 0)))) (∅ : gmap Z num)
  = Some ∅.
Proof.
  apply untested_codes_write_nothing.
  intros [H _]. unfold tags in H. simpl in H. lia.
Defined.

Lemma kernel_footprint_witness :
  dom ex_result = dom ex_mem /\
  forall p, (forall c, in_grid 2 2 c -> p <> at2 ex_R c) ->
            ex_result !! p = ex_mem !! p.
Proof. exact (kernel_footprint ex_kernel 2 ex_mem ex_result ex_kernel_run). Defined.

Lemma kernel_succeeds_iff_witness :
  is_Some (run_launch (parallel_for 2 ex_kernel) ex_mem) <->
  forall c, in_grid 2 2 c ->
    cell_ready 2 (-1) (CoeffScalar (Fin 3)) (CoeffScalar (Fin 0))
      (at2 ex_X) (at2 ex_Y) (at2 ex_R) ex_mem c.
Proof. exact (kernel_succeeds_iff ex_kernel 2 ex_mem ex_kernel_tested). Defined.

Lemma kernel_idempotent_witness :
  run_launch (parallel_for 2 ex_kernel) ex_result = Some ex_result.
Proof.
  exact (kernel_idempotent ex_kernel 2 ex_mem ex_result ex_kernel_no_alias
           ex_kernel_run).
Defined.

Lemma zero_code_operand_unused_witness :
  run_launch
    (parallel_for 2
       (MV_Axpby_Functor 1 0 IndexInt ex_R ex_X ex_Y
          (CoeffScalar (Fin 1)) (CoeffScalar (Fin 0)))) ex_mem =
  run_launch
    (parallel_for 2
       (MV_Axpby_Functor 1 0 IndexInt ex_R ex_X (ex_norows 500)
          (CoeffScalar (Fin 1)) (CoeffView ex_empty))) ex_mem.
Proof.
  refine (proj1 (proj1 (zero_code_operand_unused (T := num) 1 IndexInt 2 2
            ex_R ex_X ex_Y ex_X (ex_norows 500) ex_r2 ex_x2 ex_y2 ex_x2 ex_y2
            (CoeffScalar (Fin 1)) (CoeffScalar (Fin 0))
            (CoeffScalar (Fin 1)) (CoeffView ex_empty) ex_mem _))).
  unfold tags. simpl. lia.
Defined.

Lemma empty_problem_is_noop_witness :
  run (Axpby2_scalar_axpby (ex_norows 0) (Fin 2) (ex_norows 100) (Fin 5)
         (ex_norows 200)) (∅ : gmap Z num) = Some ∅.
Proof.
  refine (proj1 (proj1 (empty_problem_is_noop (T := num)) (ex_norows 0)
            (ex_norows 100) (ex_norows 200) (Fin 2) (Fin 5) ex_empty ex_empty
            ∅ _)).
  left. reflexivity.
Defined.

Lemma Axpby2_scalar_axpby_formula_witness :
  exists m',
    run (Axpby2_scalar_axpby ex_R (Fin (-1)) ex_X (Fin 0) ex_Y) ex_mem_noY
    = Some m' /\
    kernel_post (-1) 0 (at2 ex_R) 2 2
      (values_of ex_mem_noY (at2 ex_X)) (values_of ex_mem_noY (at2 ex_Y))
      (fun _ => Fin (-1)) (fun _ => Fin 0) m'.
Proof.
  refine (Axpby2_scalar_axpby_formula (T := num) ex_R ex_X ex_Y (Fin (-1))
            (Fin 0) ex_mem_noY (values_of ex_mem_noY (at2 ex_X))
            (values_of ex_mem_noY (at2 ex_Y)) num_sub_add_neg _ _ _).
  - unfold wf_view2. simpl. lia.
  - left. vm_compute. congruence.
  - change (kernel_pre (-1) 0 (CoeffScalar (Fin (-1))) (CoeffScalar (Fin 0))
              (at2 ex_X) (at2 ex_Y) (at2 ex_R) 2 2
              (values_of ex_mem_noY (at2 ex_X))
              (values_of ex_mem_noY (at2 ex_Y))
              (fun _ => Fin (-1)) (fun _ => Fin 0) ex_mem_noY).
    unfold kernel_pre. repeat split; intros; grid_cases; close_cell.
Defined.

Lemma Axpby1_scalar_axpby_formula_witness :
  exists m',
    run (Axpby1_scalar_axpby ex_r2 (Fin 1) ex_x2 (Fin 0) ex_y2) ex_mem_noY
    = Some m' /\
    kernel_post 1 0 (at1 ex_r2) 2 1
      (values_of ex_mem_noY (at1 ex_x2)) (values_of ex_mem_noY (at1 ex_y2))
      (fun _ => Fin 1) (fun _ => Fin 0) m'.
Proof.
  refine (Axpby1_scalar_axpby_formula (T := num) ex_r2 ex_x2 ex_y2 (Fin 1)
            (Fin 0) ex_mem_noY (values_of ex_mem_noY (at1 ex_x2))
            (values_of ex_mem_noY (at1 ex_y2)) num_sub_add_neg _ _ _).
  - simpl. lia.
  - left. vm_compute. congruence.
  - change (kernel_pre 1 0 (CoeffScalar (Fin 1)) (CoeffScalar (Fin 0))
              (at1 ex_x2) (at1 ex_y2) (at1 ex_r2) 2 1
              (values_of ex_mem_noY (at1 ex_x2))
              (values_of ex_mem_noY (at1 ex_y2))
              (fun _ => Fin 1) (fun _ => Fin 0) ex_mem_noY).
    unfold kernel_pre. repeat split; intros; grid_cases; close_cell.
Defined.

Lemma Axpby2_view_axpby_formula_witness :
  exists m',
    run (Axpby2_view_axpby ex_R ex_av ex_X ex_bv ex_Y) ex_mem_ab = Some m' /\
    kernel_post 2 2 (at2 ex_R) 2 2
      (values_of ex_mem_ab (at2 ex_X)) (values_of ex_mem_ab (at2 ex_Y))
      (coeffs_of ex_mem_ab ex_av) (coeffs_of ex_mem_ab ex_bv) m'.
Proof.
  refine (Axpby2_view_axpby_formula (T := num) ex_R ex_X ex_Y ex_av ex_bv
            ex_mem_ab (values_of ex_mem_ab (at2 ex_X))
            (values_of ex_mem_ab (at2 ex_Y))
            (coeffs_of ex_mem_ab ex_av) (coeffs_of ex_mem_ab ex_bv)
            num_sub_add_neg _ _ _).
  - unfold wf_view2. simpl. lia.
  - right. reflexivity.
  - change (kernel_pre 2 2 (CoeffView ex_av) (CoeffView ex_bv)
              (at2 ex_X) (at2 ex_Y) (at2 ex_R) 2 2
              (values_of ex_mem_ab (at2 ex_X))
              (values_of ex_mem_ab (at2 ex_Y))
              (coeffs_of ex_mem_ab ex_av) (coeffs_of ex_mem_ab ex_bv)
              ex_mem_ab).
    unfold kernel_pre. repeat split; intros; grid_cases; close_cell.
Defined.

Lemma ex_kernel_pre :
  kernel_pre (fst (functor_tags ex_kernel)) (snd (functor_tags ex_kernel))
    (functor_a ex_kernel) (functor_b ex_kernel) (functor_in_x ex_kernel)
    (functor_in_y ex_kernel) (functor_out ex_kernel) 2
    (functor_cols ex_kernel)
    (values_of ex_mem (at2 ex_X)) (values_of ex_mem (at2 ex_Y))
    (fun _ => Fin 3) (fun _ => Fin 0) ex_mem.
Proof.
  change (functor_cols ex_kernel) with 2.
  unfold kernel_pre. repeat split; intros; grid_cases; close_cell.
Defined.

Lemma kernel_rows_in_any_order_witness :
  for_each [1; 0] (call ex_kernel) ex_mem =
  run_launch (parallel_for 2 ex_kernel) ex_mem.
Proof.
  refine (kernel_rows_in_any_order ex_kernel 2 ex_mem
            (values_of ex_mem (at2 ex_X)) (values_of ex_mem (at2 ex_Y))
            (fun _ => Fin 3) (fun _ => Fin 0) [1; 0]
            ex_kernel_tested ex_kernel_pre _).
  change (range 2) with [0; 1]. apply perm_swap.
Defined.

Lemma Invoke_Left_paths_witness :
  MV_Axpby_Invoke_Left IndexInt ex_R (CoeffScalar (Fin 3)) ex_X
    (CoeffScalar (Fin 1)) ex_Y 2 1 =
  MV_Axpby_Unrolled 2 IndexInt ex_R (CoeffScalar (Fin 3)) ex_X
    (CoeffScalar (Fin 1)) ex_Y 2 1.
Proof.
  refine (proj1 (proj2 (Invoke_Left_paths (T := num) IndexInt ex_R ex_X ex_Y
            (CoeffScalar (Fin 3)) (CoeffScalar (Fin 1)) 2 1)) _).
  change (to_index IndexInt (v2_dim1 ex_X)) with 2. lia.
Defined.


Lemma dispatch_single_launch_witness :
  exists op,
    MV_Axpby_Generic IndexInt ex_R (CoeffScalar (Fin 1)) ex_X
      (CoeffScalar (Fin (-1))) ex_Y 1 (-1) =
    [parallel_for (to_index IndexInt (v2_dim0 ex_X)) op] /\
    functor_tags op = (1, -1).
Proof.
  refine (proj1 (dispatch_single_launch (T := num) IndexInt 2 ex_R ex_X ex_Y
            ex_r2 ex_x2 ex_y2 (CoeffScalar (Fin 1)) (CoeffScalar (Fin (-1)))
            1 (-1) _ _ _)).
  - unfold tags. simpl. lia.
  - unfold tags. simpl. lia.
  - left. lia.
Defined.

Lemma scalar_classification_exclusive_witness :
  fst (Axpby2_scalar_tags (Fin 1) (Fin 0)) = 1 <-> s_eq (Fin 1) ATS_one = true.
Proof.
  refine (proj1 (proj2 (proj2 (scalar_classification_exclusive (T := num)
            (Fin 1) (Fin 0) _ _)))).
  - intros [z|]; simpl; [|discriminate].
    intros H. apply Z.eqb_eq in H. subst z. split; reflexivity.
  - intros [z|]; simpl; [|discriminate].
    intros H. apply Z.eqb_eq in H. subst z. reflexivity.
Defined.

(** X16.  The body of [rot] is defined at most once for a tuple: never both
    in the library and in user code, whatever [KOKKOSKERNELS_ETI_ONLY] is in
    either, and never at all for a tuple with a third-party override; and
    the profiling region of a body names the ETI flag of its tuple. *)
Theorem rot_defined_at_most_once (eti_only_lib eti_only_user tpl eti : bool) :
  let lib := {| Rot.ETI_ONLY := eti_only_lib; Rot.COMPILE_LIBRARY := true |} in
  let user :=
    {| Rot.ETI_ONLY := eti_only_user; Rot.COMPILE_LIBRARY := false |} in
  (Rot.Rot lib tpl eti = Rot.Declared \/ Rot.Rot user tpl eti = Rot.Declared)
  /\
  Rot.Rot lib true eti = Rot.Declared /\
  Rot.Rot user true eti = Rot.Declared /\
  (forall cfg region,
     Rot.Rot cfg tpl eti = Rot.Rot_Invoke region ->
     region = (if eti then "KokkosBlas::rot[ETI]"
               else "KokkosBlas::rot[noETI]")%string).
Proof.
  simpl. split; [|split; [|split]].
  - destruct eti_only_lib, eti_only_user, tpl, eti; simpl; auto.
  - destruct eti_only_lib, eti; reflexivity.
  - destruct eti_only_user, eti; reflexivity.
  - intros [eo cl] region. unfold Rot.Rot. simpl.
    destruct eo, cl, tpl, eti; simpl; intros H; try discriminate H;
      injection H as <-; reflexivity.
Qed.

(** The library build defines the body of an ETI tuple, under the region
    of the ETI flag. *)
Lemma rot_defined_at_most_once_witness :
  Rot.Rot {| Rot.ETI_ONLY := true; Rot.COMPILE_LIBRARY := true |} false true =
  Rot.Rot_Invoke "KokkosBlas::rot[ETI]" /\
  "KokkosBlas::rot[ETI]"%string =
  (if true then "KokkosBlas::rot[ETI]" else "KokkosBlas::rot[noETI]")%string.
Proof.
  split; [reflexivity|].
  apply (proj2 (proj2 (proj2 (rot_defined_at_most_once true true false true)))
           {| Rot.ETI_ONLY := true; Rot.COMPILE_LIBRARY := true |}).
  reflexivity.
Defined.
